(** * Clinical overlay and capture system: overlay geometry and capture loop

    A shallow embedding of [overlay.py], [main.py] and [main_phone.py].

    - [Binary64] models the double-precision arithmetic that Python performs
      in expressions such as [int(0.35 * height)]: a non-negative finite
      double is a pair (mantissa, exponent), every operation rounds its exact
      result to 53 significant bits, ties to even.
    - [Overlay] is the class [OverlayRenderer]: the geometry computed by
      [__init__] and the two drawing methods, which act on numpy buffers that
      live in a heap of mutable objects.
    - [Capture] is the function [main] of the two entry points, which differ
      in their messages and in what they do when a frame is dropped. *)

From stdpp Require Import base option list gmap strings pretty.
From Stdlib Require Import ZArith Lia Ascii SpecFloat.

Local Open Scope Z_scope.

(* ===================================================================== *)
(** ** Double-precision arithmetic on non-negative values                *)
(* ===================================================================== *)

Module Binary64.

(** The double [mant * 2^expo], with [0 <= mant].  Rounded results have
    [mant <= 2^53]; the exponents that occur in this program stay far inside
    the range of normal doubles, so neither overflow nor gradual underflow
    is modelled. *)
Record float64 : Type := mkF { mant : Z; expo : Z }.

(** Number of low bits that do not fit in a 53-bit significand. *)
Definition rne_shift (N : Z) : Z :=
  if N <? 2 ^ 53 then 0 else Z.log2 N - 52.

(** Significand of [N] rounded to nearest, ties to even. *)
Definition rne_mant (N : Z) : Z :=
  if N <? 2 ^ 53 then N
  else
    let s := rne_shift N in
    let q := N / 2 ^ s in
    let r := N mod 2 ^ s in
    let half := 2 ^ (s - 1) in
    if (half <? r) || ((r =? half) && Z.odd q) then q + 1 else q.

(** The integer [N] rounded to 53 significant bits, as an integer. *)
Definition rne_val (N : Z) : Z := rne_mant N * 2 ^ rne_shift N.

(** The double nearest to the exact value [N * 2^e]. *)
Definition round53 (N e : Z) : float64 := mkF (rne_mant N) (e + rne_shift N).

(** The double nearest to [num / den * 2^e].  The quotient is taken with 107
    extra bits and a sticky bit that records a non-zero remainder, so that
    the rounding of the truncated quotient is the rounding of the exact one. *)
Definition round_ratio (num den e : Z) : float64 :=
  let n := num * 2 ^ 107 in
  let sticky := if n mod den =? 0 then 0 else 1 in
  round53 (2 * (n / den) + sticky) (e - 108).

(** [float(n)] for a Python int [n >= 0]. *)
Definition of_int (n : Z) : float64 := round53 n 0.

(** A decimal literal such as [0.35], read as the fraction [35/100]: Python
    takes the double nearest to the decimal value. *)
Definition float_literal (num den : Z) : float64 := round_ratio num den 0.

(** [x * y] on doubles. *)
Definition fmul (x y : float64) : float64 :=
  round53 (mant x * mant y) (expo x + expo y).

(** [x / y] on doubles, for [y] non-zero (the only divisor in the program is
    the literal [0.0254]). *)
Definition fdiv (x y : float64) : float64 :=
  round_ratio (mant x) (mant y) (expo x - expo y).

(** [int(x)]: truncation towards zero, which is the floor here. *)
Definition py_int (x : float64) : Z :=
  if 0 <=? expo x then mant x * 2 ^ expo x else mant x / 2 ^ (- expo x).

(** [c * n] where [c] is a float and [n] a Python int: [n] is converted
    first. *)
Definition fmul_int (c : float64) (n : Z) : float64 := fmul c (of_int n).

End Binary64.

(* ===================================================================== *)
(** ** Frames, drawing commands and the heap of buffers                  *)
(* ===================================================================== *)

Module Frames.
Import Binary64.

Definition Point : Type := Z * Z.
Definition Box : Type := Z * Z * Z * Z.
Definition Color : Type := Z * Z * Z.

(** What the OpenCV drawing calls of the program put on a buffer.  The
    rasterisation itself belongs to OpenCV; a buffer records which calls it
    received, in order. *)
Inductive DrawOp : Type :=
  | Circle (center : Point) (radius : Z) (color : Color) (thickness : Z)
  | Rectangle (pt1 pt2 : Point) (color : Color) (thickness : Z)
  | PutText (text : string) (org : Point) (font : Z) (scale : float64)
            (color : Color) (thickness : Z).

(** A numpy image: its [shape[:2]], the camera picture it was filled with
    and the drawing calls applied to it since. *)
Record Image : Type := mkImage {
  rows : Z;
  cols : Z;
  picture : nat;
  drawn : list DrawOp
}.

Definition draw (op : DrawOp) (img : Image) : Image :=
  mkImage (rows img) (cols img) (picture img) (drawn img ++ [op]).

(** What [cap.read()] delivers when it succeeds: a picture of some shape,
    which becomes a new buffer with nothing drawn on it. *)
Record Snapshot : Type := mkShot {
  shot_rows : Z;
  shot_cols : Z;
  shot_picture : nat
}.

Definition to_image (s : Snapshot) : Image :=
  mkImage (shot_rows s) (shot_cols s) (shot_picture s) [].

(** References to buffers: Python variables hold these, not images. *)
Definition ref : Type := positive.

End Frames.

(* ===================================================================== *)
(** ** The process state and its monad                                   *)
(* ===================================================================== *)

Module Runtime.
Import Binary64 Frames.

(** What the process does to the outside world, in order. *)
Inductive Event : Type :=
  | EPrint (line : string)
  | EMakedirs (dir : string)
  | ENamedWindow (win : string)
  | ESetMouseCallback (win : string)
  | EImshow (win : string) (img : Image)
  | EImwrite (path : string) (img : Image) (ok : bool)
  | ERelease
  | EDestroyAllWindows.

(** The heap of numpy buffers, the module globals [button_clicked] and
    [button_rect], and the events emitted so far. *)
Record World : Type := mkWorld {
  heap : gmap ref Image;
  button_clicked : bool;
  button_rect : option Box;
  trace : list Event
}.

(** Computations on the world; [None] is a dangling reference, which a
    Python program cannot produce. *)
Definition M (A : Type) : Type := World -> option (A * World).

#[global] Instance M_ret : MRet M := fun A a w => Some (a, w).
#[global] Instance M_bind : MBind M := fun A B f m w =>
  match m w with
  | Some (a, w') => f a w'
  | None => None
  end.

Definition emit (e : Event) : M unit := fun w =>
  Some (tt, mkWorld (heap w) (button_clicked w) (button_rect w) (trace w ++ [e])).

Definition print (line : string) : M unit := emit (EPrint line).

(** A new buffer holding [img]. *)
Definition alloc (img : Image) : M ref := fun w =>
  let r := fresh (dom (heap w)) in
  Some (r, mkWorld (<[r := img]> (heap w)) (button_clicked w) (button_rect w) (trace w)).

Definition load (r : ref) : M Image := fun w =>
  match heap w !! r with
  | Some img => Some (img, w)
  | None => None
  end.

(** In-place drawing on the buffer behind [r]. *)
Definition draw_on (r : ref) (op : DrawOp) : M unit := fun w =>
  match heap w !! r with
  | Some img =>
      Some (tt, mkWorld (<[r := draw op img]> (heap w)) (button_clicked w)
                        (button_rect w) (trace w))
  | None => None
  end.

(** [frame.copy()]. *)
Definition copy (r : ref) : M ref := img ← load r; alloc img.

Definition get_button_clicked : M bool := fun w => Some (button_clicked w, w).
Definition get_button_rect : M (option Box) := fun w => Some (button_rect w, w).
Definition set_button_clicked (b : bool) : M unit := fun w =>
  Some (tt, mkWorld (heap w) b (button_rect w) (trace w)).
Definition set_button_rect (b : option Box) : M unit := fun w =>
  Some (tt, mkWorld (heap w) (button_clicked w) b (trace w)).

End Runtime.

(* ===================================================================== *)
(** ** overlay.py: class OverlayRenderer                                 *)
(* ===================================================================== *)

Module Overlay.
Import Binary64 Frames Runtime.

Definition FONT_HERSHEY_SIMPLEX : Z := 0.
Definition green : Color := (0, 255, 0).

Record OverlayRenderer : Type := mkRenderer {
  width : Z;
  height : Z;
  lesion_box : Box;
  coin_radius : Z;
  coin_center : Point
}.

(** [gap_pixels = int(0.02 * 96 / 0.0254)]. *)
Definition gap_pixels : Z :=
  py_int (fdiv (fmul_int (float_literal 2 100) 96) (float_literal 254 10000)).

(** [OverlayRenderer.__init__(self, width, height)]. *)
Definition init (width height : Z) : OverlayRenderer :=
  let lesion_width := py_int (fmul_int (float_literal 20 100) width) in
  let lesion_height := py_int (fmul_int (float_literal 30 100) height) in
  let lesion_x1 := py_int (fmul_int (float_literal 25 100) width) in
  let lesion_y1 := py_int (fmul_int (float_literal 35 100) height) in
  let coin_radius := py_int (fmul_int (float_literal 8 100) width) in
  let coin_x := lesion_x1 + lesion_width + gap_pixels + coin_radius in
  let coin_y := py_int (fmul_int (float_literal 5 10) height) in
  mkRenderer width height
    (lesion_x1, lesion_y1, lesion_x1 + lesion_width, lesion_y1 + lesion_height)
    coin_radius
    (coin_x, coin_y).

(** [draw_static_guides(self, frame)]. *)
Definition draw_static_guides (self : OverlayRenderer) (frame : ref) : M ref :=
  overlay ← copy frame;
  draw_on overlay (Circle (coin_center self) (coin_radius self) green 2);;
  let '(x1, y1, x2, y2) := lesion_box self in
  draw_on overlay (Rectangle (x1, y1) (x2, y2) green 2);;
  mret overlay.

(** [show_feedback(self, frame, message, color)]. *)
Definition show_feedback (self : OverlayRenderer) (frame : ref)
    (message : string) (color : Color) : M ref :=
  draw_on frame
    (PutText message (50, 40) FONT_HERSHEY_SIMPLEX (float_literal 7 10) color 2);;
  draw_on frame
    (PutText "Align coin inside circle"
       ((coin_center self).1 - 80, (coin_center self).2 - coin_radius self - 15)
       FONT_HERSHEY_SIMPLEX (float_literal 5 10) green 1);;
  let '(x1, y1, _, _) := lesion_box self in
  draw_on frame
    (PutText "Place lesion here" (x1, y1 - 10)
       FONT_HERSHEY_SIMPLEX (float_literal 5 10) green 1);;
  mret frame.

(** The values of the dictionary returned by [get_config]. *)
Inductive ConfigValue : Type :=
  | CfgPoint (p : Point)
  | CfgInt (n : Z)
  | CfgBox (b : Box).

(** [get_config(self)]. *)
Definition get_config (self : OverlayRenderer) : gmap string ConfigValue :=
  <["coin_center" := CfgPoint (coin_center self)]>
  (<["coin_radius" := CfgInt (coin_radius self)]>
  (<["lesion_box" := CfgBox (lesion_box self)]> ∅)).

(** The points of the guides that the containment properties speak about. *)
Definition lesion_right (self : OverlayRenderer) : Z := (lesion_box self).1.2.
Definition coin_left (self : OverlayRenderer) : Z :=
  (coin_center self).1 - coin_radius self.
Definition coin_right (self : OverlayRenderer) : Z :=
  (coin_center self).1 + coin_radius self.

(** Whether a box lies inside [[0,width) x [0,height)]. *)
Definition box_in_frame (b : Box) (width height : Z) : Prop :=
  let '(x1, y1, x2, y2) := b in
  0 <= x1 /\ 0 <= y1 /\ x2 < width /\ y2 < height.

End Overlay.

(* ===================================================================== *)
(** ** main.py and main_phone.py                                         *)
(* ===================================================================== *)

Module Capture.
Import Binary64 Frames Runtime Overlay.

(** The two entry points. *)
Inductive Variant : Type :=
  | Webcam   (* main.py *)
  | Phone.   (* main_phone.py *)

Definition EVENT_LBUTTONDOWN : Z := 1.
Definition FONT_HERSHEY_DUPLEX : Z := 2.
Definition window : string := "Clinical Capture System".
Definition ord_space : Z := 32.
Definition ord_q : Z := 113.
Definition nl : string := String "010"%char EmptyString.
Definition check_mark : string := "✓".

Definition live_message : string := "Align coin and lesion in guides".
Definition frozen_message : string := "CAPTURED SUCCESSFULLY - Press Q to exit".

(** [s * n] on strings. *)
Fixpoint str_mul (s : string) (n : nat) : string :=
  match n with
  | O => EmptyString
  | S n' => s +:+ str_mul s n'
  end.

(** [os.path.join(a, b)] on a POSIX system. *)
Definition path_join (a b : string) : string :=
  match b with
  | String "/"%char _ => b
  | _ =>
      match a with
      | EmptyString => b
      | _ =>
          if String.eqb (String.substring (String.length a - 1) 1 a) "/"
          then a +:+ b
          else a +:+ "/" +:+ b
      end
  end.

(** A pointer event as the window system hands it to the callback. *)
Record MouseEvent : Type := mkMouse { m_event : Z; m_x : Z; m_y : Z }.

(** [mouse_callback(event, x, y, flags, param)]. *)
Definition mouse_callback (ev : MouseEvent) : M unit :=
  rect ← get_button_rect;
  match rect with
  | Some (bx, by_, bw, bh) =>
      if (m_event ev =? EVENT_LBUTTONDOWN)
         && ((bx <=? m_x ev) && (m_x ev <=? bx + bw)
             && (by_ <=? m_y ev) && (m_y ev <=? by_ + bh))
      then set_button_clicked true
      else mret tt
  | None => mret tt
  end.

(** [cv2.waitKey(1)]: the pointer events that arrived since the last poll
    are handed to the callback, then the key code is returned (-1 when no
    key was pressed). *)
Fixpoint deliver (evs : list MouseEvent) : M unit :=
  match evs with
  | [] => mret tt
  | ev :: rest => mouse_callback ev;; deliver rest
  end.

Definition waitKey (pending : list MouseEvent) (raw : Z) : M Z :=
  deliver pending;; mret raw.

Definition imshow (win : string) (frame : ref) : M unit :=
  img ← load frame; emit (EImshow win img).

(** [cv2.imwrite(path, frame)]; the result says whether the file was
    written. *)
Definition imwrite (path : string) (frame : ref) (ok : bool) : M bool :=
  img ← load frame; emit (EImwrite path img ok);; mret ok.

(** What the outside world supplies to one iteration of the loop. *)
Record IterInput : Type := mkIter {
  grab : option Snapshot;       (* cap.read(): None when ret is false *)
  pending : list MouseEvent;    (* pointer events seen by waitKey *)
  raw_key : Z;                  (* result of waitKey *)
  now : string;                 (* time.strftime("%Y%m%d-%H%M%S") *)
  write_ok : bool               (* whether imwrite succeeds *)
}.

(** What the outside world supplies to a run of [main]. *)
Record Env : Type := mkEnv {
  opened : bool;                (* cap.isOpened() *)
  first : option Snapshot;      (* the first cap.read() *)
  dir_exists : bool;            (* os.path.exists(captures_dir) *)
  text_size : Z * Z;            (* cv2.getTextSize("CAPTURE", ...)[0] *)
  inputs : list IterInput
}.

Inductive Control : Type := Continue | Break.

Definition capture_filename (timestamp : string) : string :=
  "capture_" +:+ timestamp +:+ ".png".

(** The trigger test [button_clicked or key == ord(' ') or key == 32]. *)
Definition triggered (clicked : bool) (key : Z) : bool :=
  clicked || (key =? ord_space) || (key =? 32).

(** One pass through the body of [while True], started with the local
    [captured]; returns its new value and how the pass ended. *)
Definition loop_body (v : Variant) (renderer : OverlayRenderer)
    (width height : Z) (captures_dir : string) (tsize : Z * Z)
    (captured : bool) (inp : IterInput) : M (bool * Control) :=
  match grab inp with
  | None =>
      match v with
      | Webcam => mret (captured, Break)
      | Phone => print "WARNING: Frame dropped";; mret (captured, Continue)
      end
  | Some shot =>
      frame ← alloc (to_image shot);
      if captured then
        frame ← draw_static_guides renderer frame;
        frame ← show_feedback renderer frame frozen_message (0, 255, 255);
        imshow window frame;;
        key ← waitKey (pending inp) (raw_key inp);
        if Z.land key 255 =? ord_q
        then mret (captured, Break)
        else mret (captured, Continue)
      else
        frame ← draw_static_guides renderer frame;
        frame ← show_feedback renderer frame live_message (0, 255, 0);
        let button_width := 200 in
        let button_height := 60 in
        let button_x := (width - button_width) `div` 2 in
        let button_y := height - 100 in
        set_button_rect (Some (button_x, button_y, button_width, button_height));;
        draw_on frame
          (Rectangle (button_x, button_y)
             (button_x + button_width, button_y + button_height) (0, 255, 0) (-1));;
        draw_on frame
          (Rectangle (button_x, button_y)
             (button_x + button_width, button_y + button_height) (255, 255, 255) 3);;
        let text_x := button_x + (button_width - tsize.1) `div` 2 in
        let text_y := button_y + (button_height + tsize.2) `div` 2 in
        draw_on frame
          (PutText "CAPTURE" (text_x, text_y) FONT_HERSHEY_DUPLEX
             (float_literal 12 10) (0, 0, 0) 3);;
        imshow window frame;;
        raw ← waitKey (pending inp) (raw_key inp);
        let key := Z.land raw 255 in
        clicked ← get_button_clicked;
        captured' ←
          (if triggered clicked key then
             let filename := capture_filename (now inp) in
             let filepath := path_join captures_dir filename in
             imwrite filepath frame (write_ok inp);;
             print (nl +:+ check_mark +:+ " IMAGE CAPTURED: " +:+ filepath);;
             set_button_clicked false;;
             mret true
           else mret captured);
        if key =? ord_q
        then mret (captured', Break)
        else mret (captured', Continue)
  end.

(** How the [while True] loop stands after the supplied iterations. *)
Inductive LoopEnd : Type :=
  | Exited (captured : bool)     (* a break was executed *)
  | Looping (captured : bool).   (* the loop waits for the next frame *)

Fixpoint main_loop (v : Variant) (renderer : OverlayRenderer)
    (width height : Z) (captures_dir : string) (tsize : Z * Z)
    (captured : bool) (ins : list IterInput) : M LoopEnd :=
  match ins with
  | [] => mret (Looping captured)
  | inp :: rest =>
      '(captured', ctl) ← loop_body v renderer width height captures_dir tsize captured inp;
      match ctl with
      | Break => mret (Exited captured')
      | Continue => main_loop v renderer width height captures_dir tsize captured' rest
      end
  end.

(** How a call of [main] stands after the supplied iterations. *)
Inductive Outcome : Type :=
  | Returned      (* main returned *)
  | Running.      (* main is still inside its loop *)

Definition open_failure_report (v : Variant) : M unit :=
  print "ERROR: Cannot open camera";;
  match v with
  | Webcam => mret tt
  | Phone =>
      print (nl +:+ "Troubleshooting:");;
      print "- Check that IP Webcam is running on your phone";;
      print "- Verify both devices are on the same WiFi network";;
      print "- Ensure IP address is correct"
  end.

Definition ready_report (v : Variant) : M unit :=
  match v with
  | Webcam =>
      print "System ready.";;
      print "Controls:";;
      print "  CLICK CAPTURE BUTTON or SPACEBAR - Capture image";;
      print "  Q - Quit";;
      print (str_mul "=" 50)
  | Phone =>
      print (nl +:+ str_mul "=" 50);;
      print "SYSTEM READY";;
      print (str_mul "=" 50);;
      print "Instructions:";;
      print "1. Align ₹1 coin inside the green circle";;
      print "2. Position lesion inside the green rectangle";;
      print "3. CLICK CAPTURE BUTTON or press SPACEBAR";;
      print "4. Press 'Q' to quit";;
      print (str_mul "=" 50 +:+ nl)
  end.

Definition prefix_of (v : Variant) : string :=
  match v with
  | Webcam => EmptyString
  | Phone => check_mark +:+ " "
  end.

(** [main()], from the creation of the [VideoCapture] on (in main_phone.py
    the source was chosen by [get_camera_source] before). *)
Definition main (v : Variant) (env : Env) : M Outcome :=
  if negb (opened env) then
    open_failure_report v;; mret Returned
  else
    match first env with
    | None =>
        print "ERROR: Cannot read from camera";;
        emit ERelease;;
        mret Returned
    | Some shot =>
        _ ← alloc (to_image shot);
        let height := shot_rows shot in
        let width := shot_cols shot in
        print (match v with Webcam => EmptyString | Phone => nl +:+ check_mark +:+ " " end
               +:+ "Camera initialized: " +:+ pretty width +:+ "x" +:+ pretty height);;
        let captures_dir := "captured_images" in
        (if negb (dir_exists env) then
           emit (EMakedirs captures_dir);;
           print (prefix_of v +:+ "Created directory: " +:+ captures_dir)
         else
           print (prefix_of v +:+ "Using existing directory: " +:+ captures_dir));;
        let renderer := init width height in
        let overlay_config := get_config renderer in
        ready_report v;;
        emit (ENamedWindow window);;
        emit (ESetMouseCallback window);;
        fin ← main_loop v renderer width height captures_dir (text_size env)
                false (inputs env);
        match fin with
        | Looping _ => mret Running
        | Exited _ =>
            emit ERelease;;
            emit EDestroyAllWindows;;
            print (nl +:+ prefix_of v +:+ "System shutdown.");;
            mret Returned
        end
    end.

(** The script [if __name__ == "__main__": main()]: once [main] has
    returned the interpreter reaches the end of the file and the process
    exits with status 0; there is no [sys.exit] in either file. *)
Definition exit_code (o : Outcome) : option Z :=
  match o with
  | Returned => Some 0
  | Running => None
  end.

(** The exit status of the process that runs the script, once [main] has
    returned. *)
Definition process_exit (v : Variant) (env : Env) (w : World) : option Z :=
  match main v env w with
  | Some (o, _) => exit_code o
  | None => None
  end.

(** The world before [main] starts: [button_clicked = False],
    [button_rect = None], no buffers, nothing emitted. *)
Definition initial_world : World := mkWorld ∅ false None [].

(** Projections of a trace. *)
Definition imwrite_calls (tr : list Event) : list string :=
  omap (fun e => match e with EImwrite p _ _ => Some p | _ => None end) tr.

Definition files_written (tr : list Event) : list string :=
  omap (fun e => match e with EImwrite p _ true => Some p | _ => None end) tr.

Definition shown (tr : list Event) : list Image :=
  omap (fun e => match e with EImshow _ img => Some img | _ => None end) tr.

Definition printed (tr : list Event) : list string :=
  omap (fun e => match e with EPrint s => Some s | _ => None end) tr.

(** The texts that were put on a displayed frame. *)
Definition texts (img : Image) : list string :=
  omap (fun op => match op with
                  | PutText t _ _ _ _ _ => Some t
                  | _ => None
                  end) (drawn img).

End Capture.

(* ===================================================================== *)
(** ** Vocabulary of the statements                                      *)
(* ===================================================================== *)

Module Views.
Import Binary64 Frames Runtime Overlay Capture.

(** Frame dimensions are OpenCV [int]s. *)
Definition max_dim : Z := 2147483647.

(** [p] percent of [n], truncated to an integer. *)
Definition percent (p n : Z) : Z := p * n / 100.

(** The geometry in the words of the specification: every coordinate is an
    integer-truncated percentage of a frame dimension. *)
Definition spec_geometry (width height : Z) (r : OverlayRenderer) : Prop :=
  lesion_box r =
    (percent 25 width, percent 35 height,
     percent 25 width + percent 20 width,
     percent 35 height + percent 30 height)
  /\ coin_radius r = percent 8 width
  /\ coin_center r = (lesion_right r + gap_pixels + coin_radius r, percent 50 height).

(** The image that [draw_static_guides] produces from [img]. *)
Definition with_guides (self : OverlayRenderer) (img : Image) : Image :=
  let '(x1, y1, x2, y2) := lesion_box self in
  draw (Rectangle (x1, y1) (x2, y2) green 2)
    (draw (Circle (coin_center self) (coin_radius self) green 2) img).

(** The image that [show_feedback] turns [img] into. *)
Definition with_feedback (self : OverlayRenderer) (message : string)
    (color : Color) (img : Image) : Image :=
  let '(x1, y1, _, _) := lesion_box self in
  draw (PutText "Place lesion here" (x1, y1 - 10)
          FONT_HERSHEY_SIMPLEX (float_literal 5 10) green 1)
    (draw (PutText "Align coin inside circle"
             ((coin_center self).1 - 80, (coin_center self).2 - coin_radius self - 15)
             FONT_HERSHEY_SIMPLEX (float_literal 5 10) green 1)
       (draw (PutText message (50, 40) FONT_HERSHEY_SIMPLEX (float_literal 7 10) color 2)
          img)).

(** The capture control: [button_rect] as the loop computes it. *)
Definition button_box (width height : Z) : Box :=
  ((width - 200) `div` 2, height - 100, 200, 60).

Definition with_button (width height : Z) (tsize : Z * Z) (img : Image) : Image :=
  let '(bx, by_, bw, bh) := button_box width height in
  draw (PutText "CAPTURE" (bx + (bw - tsize.1) `div` 2, by_ + (bh + tsize.2) `div` 2)
          FONT_HERSHEY_DUPLEX (float_literal 12 10) (0, 0, 0) 3)
    (draw (Rectangle (bx, by_) (bx + bw, by_ + bh) (255, 255, 255) 3)
       (draw (Rectangle (bx, by_) (bx + bw, by_ + bh) (0, 255, 0) (-1)) img)).

(** What is displayed before and after the capture. *)
Definition live_view (r : OverlayRenderer) (width height : Z) (tsize : Z * Z)
    (shot : Snapshot) : Image :=
  with_button width height tsize
    (with_feedback r live_message (0, 255, 0) (with_guides r (to_image shot))).

Definition frozen_view (r : OverlayRenderer) (shot : Snapshot) : Image :=
  with_feedback r frozen_message (0, 255, 255) (with_guides r (to_image shot)).

(** A left-button press inside the rectangle, borders included. *)
Definition hits (rect : Box) (ev : MouseEvent) : bool :=
  let '(bx, by_, bw, bh) := rect in
  (m_event ev =? EVENT_LBUTTONDOWN)
  && ((bx <=? m_x ev) && (m_x ev <=? bx + bw)
      && (by_ <=? m_y ev) && (m_y ev <=? by_ + bh)).

(** [button_clicked] after the callback has seen [evs]. *)
Definition clicked_after (w : World) (evs : list MouseEvent) : bool :=
  button_clicked w
  || match button_rect w with
     | Some rect => existsb (hits rect) evs
     | None => false
     end.

Definition with_rect (w : World) (rect : Box) : World :=
  mkWorld (heap w) (button_clicked w) (Some rect) (trace w).

(** A capture trigger fires in the iteration fed with [inp]: the button was
    clicked or the key is the space bar. *)
Definition fires (width height : Z) (inp : IterInput) (w : World) : bool :=
  triggered (clicked_after (with_rect w (button_box width height)) (pending inp))
            (Z.land (raw_key inp) 255).

Definition capture_path (dir : string) (inp : IterInput) : string :=
  path_join dir (capture_filename (now inp)).

(** What a capture emits after the frame was displayed. *)
Definition capture_events (dir : string) (inp : IterInput) (view : Image) : list Event :=
  [EImwrite (capture_path dir inp) view (write_ok inp);
   EPrint (nl +:+ check_mark +:+ " IMAGE CAPTURED: " +:+ capture_path dir inp)].

(** What an iteration emits once [captured] is true. *)
Definition frozen_events (v : Variant) (r : OverlayRenderer) (inp : IterInput)
    : list Event :=
  match grab inp with
  | Some shot => [EImshow window (frozen_view r shot)]
  | None =>
      match v with
      | Webcam => []
      | Phone => [EPrint "WARNING: Frame dropped"]
      end
  end.

(** A displayed frame carries the frozen banner and not the live one. *)
Definition frozen_banner (img : Image) : Prop :=
  frozen_message ∈ texts img /\ live_message ∉ texts img.

(** The quit key is pressed in an iteration that got a frame. *)
Definition quits (inp : IterInput) : Prop :=
  is_Some (grab inp) /\ Z.land (raw_key inp) 255 = ord_q.

Definition final_captured (fin : LoopEnd) : bool :=
  match fin with
  | Exited c => c
  | Looping c => c
  end.

(** The buffers after an iteration that received [img] and displayed
    [view]: the frame read from the camera and the annotated copy. *)
Definition heap_after (h : gmap ref Image) (img view : Image) : gmap ref Image :=
  let h1 := <[fresh (dom h) := img]> h in
  <[fresh (dom h1) := view]> h1.

(** The camera cannot be opened, or its first frame cannot be read. *)
Definition startup_fails (env : Env) : Prop :=
  opened env = false \/ first env = None.

(** What [main] emits when the start-up fails. *)
Definition failure_events (v : Variant) (env : Env) : list Event :=
  if negb (opened env) then
    EPrint "ERROR: Cannot open camera" ::
    match v with
    | Webcam => []
    | Phone =>
        [EPrint (nl +:+ "Troubleshooting:");
         EPrint "- Check that IP Webcam is running on your phone";
         EPrint "- Verify both devices are on the same WiFi network";
         EPrint "- Ensure IP address is correct"]
    end
  else [EPrint "ERROR: Cannot read from camera"; ERelease].

(** The camera works and the quit key is pressed at some point. *)
Definition quit_pressed (env : Env) : Prop :=
  opened env = true /\ is_Some (first env) /\ Exists quits (inputs env).

(** The same double in the IEEE 754 formalisation of the standard library,
    and [int] of a double of that formalisation. *)
Definition to_spec (x : float64) : spec_float :=
  match mant x with
  | Zpos m => S754_finite false m (expo x)
  | _ => S754_zero false
  end.

Definition spec_int (x : spec_float) : option Z :=
  match x with
  | S754_zero _ => Some 0
  | S754_finite false m e => Some (py_int (mkF (Zpos m) e))
  | _ => None
  end.

(** [int(c * n)] computed with the library's multiplication. *)
Definition spec_mul_int (c : float64) (n : Z) : option Z :=
  spec_int (SFmul 53 1024 (to_spec c) (binary_normalize 53 1024 n 0 false)).

(** Both computations of [int(c * n)] agree for every [n] below [bound]. *)
Definition agree_below (bound : nat) (c : float64) : bool :=
  forallb (fun n =>
             match spec_mul_int c n with
             | Some z => z =? py_int (fmul_int c n)
             | None => false
             end)
          (map Z.of_nat (seq 0 bound)).

(** [x] is a normal double within half a unit in the last place of
    [num / den]. *)
Definition nearest53 (x : float64) (num den : Z) : Prop :=
  2 ^ 52 <= mant x < 2 ^ 53 /\ expo x <= 0 /\
  2 * Z.abs (mant x * den - num * 2 ^ (- expo x)) <= den.

End Views.

(* ===================================================================== *)
(** ** Sample inputs                                                     *)
(* ===================================================================== *)

Module Samples.
Import Binary64 Frames Runtime Overlay Capture Views.

(** A 640x480 picture. *)
Definition sample_shot : Snapshot := mkShot 480 640 0.

(** Iterations: nothing happens; the space bar is pressed; the space bar
    is pressed and the write fails; the button is clicked; [q] is pressed. *)
Definition idle_input : IterInput :=
  mkIter (Some sample_shot) [] (-1) "20260101-101010" true.
Definition space_input : IterInput :=
  mkIter (Some sample_shot) [] 32 "20260101-101010" true.
Definition failed_write_input : IterInput :=
  mkIter (Some sample_shot) [] 32 "20260101-101010" false.
Definition click_input : IterInput :=
  mkIter (Some sample_shot) [mkMouse 1 300 400] (-1) "20260101-101011" true.
Definition quit_input : IterInput :=
  mkIter (Some sample_shot) [] 113 "20260101-101012" true.

(** Runs: no camera; a camera that delivers no frame; a session. *)
Definition env_no_camera : Env := mkEnv false None true (100, 30) [].
Definition env_no_frame : Env := mkEnv true None true (100, 30) [].
Definition env_session : Env :=
  mkEnv true (Some sample_shot) false (100, 30)
    [idle_input; space_input; click_input; quit_input].

(** A world with one buffer, held by the caller. *)
Definition sample_world : World :=
  mkWorld {[1%positive := to_image sample_shot]} false None [].

End Samples.

(* ===================================================================== *)
(** ** main_phone.py: get_camera_source                                  *)
(* ===================================================================== *)

Module PhoneSource.

(** A Python string: its code points. *)
Definition pystr : Type := list N.

(** An ASCII literal of the program as a Python string. *)
Definition lit (s : string) : pystr := map Ascii.N_of_ascii (String.list_ascii_of_string s).

(** [c.isspace()]: the code points that [str.strip()] removes. *)
Definition isspace (c : N) : bool :=
  (((9 <=? c) && (c <=? 13)) || ((28 <=? c) && (c <=? 32))
   || (c =? 133) || (c =? 160) || (c =? 5760)
   || ((8192 <=? c) && (c <=? 8202))
   || (c =? 8232) || (c =? 8233) || (c =? 8239) || (c =? 8287)
   || (c =? 12288))%N.

Fixpoint lstrip (s : pystr) : pystr :=
  match s with
  | c :: rest => if isspace c then lstrip rest else s
  | [] => []
  end.

Definition rstrip (s : pystr) : pystr := rev (lstrip (rev s)).

(** [s.strip()]. *)
Definition strip (s : pystr) : pystr := rstrip (lstrip s).

(** [s.startswith(p)] and [s.endswith(p)]. *)
Fixpoint startswith (s p : pystr) : bool :=
  match p, s with
  | [], _ => true
  | a :: p', b :: s' => (a =? b)%N && startswith s' p'
  | _ :: _, [] => false
  end.

Definition endswith (s p : pystr) : bool := startswith (rev s) (rev p).

(** [s == t]. *)
Fixpoint str_eqb (s t : pystr) : bool :=
  match s, t with
  | [], [] => true
  | a :: s', b :: t' => (a =? b)%N && str_eqb s' t'
  | _, _ => false
  end.

(** What the function does on the terminal. *)
Inductive Console : Type :=
  | Out (line : pystr)        (* print(line) *)
  | Ask (prompt : pystr).     (* the prompt of input(prompt) *)

(** What is handed to [cv2.VideoCapture]. *)
Inductive CameraSource : Type :=
  | Device (index : Z)
  | Stream (url : pystr).

(** [input(prompt)] on the lines still to be typed; at the end of the
    input Python raises [EOFError]. *)
Definition input (stdin : list pystr) : option (pystr * list pystr) :=
  match stdin with
  | line :: rest => Some (line, rest)
  | [] => None
  end.

Definition newline : pystr := [10%N].

Fixpoint times (s : pystr) (n : nat) : pystr :=
  match n with
  | O => []
  | S n' => s ++ times s n'
  end.

Definition menu : list Console :=
  [Out (newline ++ times (lit "=") 50);
   Out (lit "SELECT CAMERA SOURCE");
   Out (times (lit "=") 50);
   Out (lit "1. Webcam (default)");
   Out (lit "2. Phone Camera (IP Webcam)");
   Out (times (lit "=") 50)].

(** [get_camera_source()]: the terminal output, the result ([None] when
    [EOFError] is raised) and the input lines that were not read. *)
Definition get_camera_source (stdin : list pystr)
    : list Console * option CameraSource * list pystr :=
  let out := menu ++ [Ask (lit "Enter choice (1 or 2): ")] in
  match input stdin with
  | None => (out, None, stdin)
  | Some (line, stdin) =>
      let choice := strip line in
      if str_eqb choice (lit "2") then
        let out := out ++
          [Out (newline ++ lit "Enter your phone's IP address from IP Webcam app");
           Out (lit "Example: 192.168.1.100:8080");
           Ask (lit "IP Address: ")] in
        match input stdin with
        | None => (out, None, stdin)
        | Some (line, stdin) =>
            let ip := strip line in
            let ip := if negb (startswith ip (lit "http"))
                      then lit "http://" ++ ip else ip in
            let ip := if negb (endswith ip (lit "/video"))
                      then ip ++ lit "/video" else ip in
            (out ++ [Out (lit "Connecting to: " ++ ip)], Some (Stream ip), stdin)
        end
      else (out, Some (Device 0), stdin)
  end.

(** The address that a typed line is turned into. *)
Definition url_of (line : pystr) : pystr :=
  let ip := strip line in
  let ip := if negb (startswith ip (lit "http")) then lit "http://" ++ ip else ip in
  if negb (endswith ip (lit "/video")) then ip ++ lit "/video" else ip.

End PhoneSource.

(* ===================================================================== *)
(** ** Further vocabulary of the statements                              *)
(* ===================================================================== *)

Module Coverage.
Import Binary64 Frames Runtime Overlay Capture Views.

(** The highest and the lowest point of the coin circle. *)
Definition coin_top (self : OverlayRenderer) : Z :=
  (coin_center self).2 - coin_radius self.
Definition coin_bottom (self : OverlayRenderer) : Z :=
  (coin_center self).2 + coin_radius self.

(** The events that an iteration of the loop can emit. *)
Definition loop_event (e : Event) : Prop :=
  match e with
  | EImshow _ _ | EImwrite _ _ _ | EPrint _ => True
  | _ => False
  end.

(** What [main] prints between the window set-up and the directory
    message. *)
Definition ready_events (v : Variant) : list Event :=
  match v with
  | Webcam =>
      [EPrint "System ready.";
       EPrint "Controls:";
       EPrint "  CLICK CAPTURE BUTTON or SPACEBAR - Capture image";
       EPrint "  Q - Quit";
       EPrint (str_mul "=" 50)]
  | Phone =>
      [EPrint (nl +:+ str_mul "=" 50);
       EPrint "SYSTEM READY";
       EPrint (str_mul "=" 50);
       EPrint "Instructions:";
       EPrint "1. Align ₹1 coin inside the green circle";
       EPrint "2. Position lesion inside the green rectangle";
       EPrint "3. CLICK CAPTURE BUTTON or press SPACEBAR";
       EPrint "4. Press 'Q' to quit";
       EPrint (str_mul "=" 50 +:+ nl)]
  end.

(** What [main] emits before its loop, once the first frame is there. *)
Definition setup_events (v : Variant) (env : Env) (shot : Snapshot) : list Event :=
  [EPrint (match v with Webcam => EmptyString | Phone => nl +:+ check_mark +:+ " " end
           +:+ "Camera initialized: " +:+ pretty (shot_cols shot)
           +:+ "x" +:+ pretty (shot_rows shot))]
  ++ (if dir_exists env
      then [EPrint (prefix_of v +:+ "Using existing directory: " +:+ "captured_images")]
      else [EMakedirs "captured_images";
            EPrint (prefix_of v +:+ "Created directory: " +:+ "captured_images")])
  ++ ready_events v
  ++ [ENamedWindow window; ESetMouseCallback window].

(** What [main] emits after its loop. *)
Definition teardown_events (v : Variant) : list Event :=
  [ERelease; EDestroyAllWindows;
   EPrint (nl +:+ prefix_of v +:+ "System shutdown.")].

(** Occurrences in a trace. *)
Definition releases (tr : list Event) : nat :=
  length (omap (fun e => match e with ERelease => Some e | _ => None end) tr).
Definition makedirs (tr : list Event) : nat :=
  length (omap (fun e => match e with EMakedirs _ => Some e | _ => None end) tr).

(** [raw_key] replaced in an iteration's input. *)
Definition with_key (inp : IterInput) (k : Z) : IterInput :=
  mkIter (grab inp) (pending inp) k (now inp) (write_ok inp).

End Coverage.

(* ===================================================================== *)
(** * Properties                                                         *)
(* ===================================================================== *)

Import Binary64 Frames Runtime Overlay Capture Views Samples Coverage.

(* ===================================================================== *)
(** ** Rounding to 53 bits                                               *)
(* ===================================================================== *)

Section Rounding.

Lemma pow2_pos e : 0 <= e -> 0 < 2 ^ e.
Proof. intros. apply Z.pow_pos_nonneg; lia. Qed.

Lemma pow2_split a b : 0 <= a -> 0 <= b -> 2 ^ (a + b) = 2 ^ a * 2 ^ b.
Proof. intros. apply Z.pow_add_r; lia. Qed.

Lemma rne_val_small N : N < 2 ^ 53 -> rne_val N = N.
Proof.
  intros H. unfold rne_val, rne_mant, rne_shift.
  destruct (Z.ltb_spec N (2 ^ 53)); [|lia].
  rewrite Z.pow_0_r. lia.
Qed.

Lemma rne_shift_bounds N :
  2 ^ 53 <= N ->
  1 <= rne_shift N /\ 2 ^ (52 + rne_shift N) <= N < 2 ^ (53 + rne_shift N).
Proof.
  intros H. unfold rne_shift.
  destruct (Z.ltb_spec N (2 ^ 53)); [lia|].
  assert (Hpos : 0 < N) by (pose proof (pow2_pos 53); lia).
  pose proof (Z.log2_spec N Hpos) as [Hlo Hhi].
  assert (53 <= Z.log2 N).
  { rewrite <- (Z.log2_pow2 53) by lia. apply Z.log2_le_mono. lia. }
  replace (52 + (Z.log2 N - 52)) with (Z.log2 N) by lia.
  replace (53 + (Z.log2 N - 52)) with (Z.succ (Z.log2 N)) by lia.
  lia.
Qed.

(** A large integer is rounded down when its remainder is at most half a
    unit in the last place, up when it is at least half. *)
Lemma rne_val_cases N :
  2 ^ 53 <= N ->
  let s := rne_shift N in
  let q := N / 2 ^ s in
  let r := N mod 2 ^ s in
  (rne_val N = q * 2 ^ s /\ 2 * r <= 2 ^ s) \/
  (rne_val N = (q + 1) * 2 ^ s /\ 2 ^ s <= 2 * r).
Proof.
  intros H s q r.
  destruct (rne_shift_bounds N H) as [Hs _]. fold s in Hs.
  assert (Hhalf : 2 ^ s = 2 * 2 ^ (s - 1)).
  { replace s with (1 + (s - 1)) at 1 by lia. rewrite pow2_split by lia. reflexivity. }
  unfold rne_val, rne_mant. fold s.
  destruct (Z.ltb_spec N (2 ^ 53)); [lia|]. fold q r.
  destruct (Z.ltb_spec (2 ^ (s - 1)) r); simpl.
  - right. lia.
  - destruct (Z.eqb_spec r (2 ^ (s - 1))); simpl.
    + destruct (Z.odd q); [right | left]; lia.
    + left. lia.
Qed.

Lemma rne_shift_nonneg N : 0 <= rne_shift N.
Proof.
  destruct (Z.lt_ge_cases N (2 ^ 53)) as [H | H].
  - unfold rne_shift. destruct (Z.ltb_spec N (2 ^ 53)); lia.
  - destruct (rne_shift_bounds N H). lia.
Qed.

(** [int] of a rounded value with a non-positive exponent is a floor. *)
Lemma py_int_round53 N E :
  0 <= N -> 0 <= E -> py_int (round53 N (- E)) = rne_val N / 2 ^ E.
Proof.
  intros HN HE. unfold py_int, round53, rne_val. simpl.
  pose proof (rne_shift_nonneg N) as Hs.
  set (s := rne_shift N) in *. set (m := rne_mant N).
  destruct (Z.leb_spec 0 (- E + s)).
  - replace s with ((- E + s) + E) at 2 by lia.
    rewrite (pow2_split (- E + s) E) by lia. rewrite Z.mul_assoc.
    rewrite Z.div_mul; [reflexivity|]. pose proof (pow2_pos E). lia.
  - replace E with (s + (- (- E + s))) at 2 by lia.
    rewrite (pow2_split s (- (- E + s))) by lia.
    rewrite (Z.mul_comm (2 ^ s)).
    rewrite Z.div_mul_cancel_r; [reflexivity| |];
    match goal with |- 2 ^ ?e <> 0 => pose proof (pow2_pos e); lia end.
Qed.

Lemma of_int_exact n : 0 <= n < 2 ^ 53 -> of_int n = mkF n 0.
Proof.
  intros H. unfold of_int, round53, rne_mant, rne_shift.
  destruct (Z.ltb_spec n (2 ^ 53)); [reflexivity | lia].
Qed.

Lemma py_int_fmul_int c n :
  0 <= mant c -> expo c <= 0 -> 0 <= n < 2 ^ 53 ->
  py_int (fmul_int c n) = rne_val (mant c * n) / 2 ^ (- expo c).
Proof.
  intros Hm HE Hn. unfold fmul_int, fmul. rewrite of_int_exact by lia. simpl.
  rewrite Z.add_0_r. rewrite <- (Z.opp_involutive (expo c)) at 1.
  apply py_int_round53; nia.
Qed.

(** At most 31 bits are rounded away below [2^84]. *)
Lemma rne_shift_le_31 N : 2 ^ 53 <= N < 2 ^ 84 -> rne_shift N <= 31.
Proof.
  intros [H1 H2]. destruct (rne_shift_bounds N H1) as [Hs [Hlo _]].
  destruct (Z.le_gt_cases (rne_shift N) 31) as [|Hgt]; [assumption|].
  assert (2 ^ 84 <= 2 ^ (52 + rne_shift N)) by (apply Z.pow_le_mono_r; lia).
  lia.
Qed.

(** Between two multiples of [2^E] and clear of the upper one: the floor
    is not disturbed by the rounding. *)
Lemma rne_floor_exact N E k :
  0 <= k -> 0 <= N < 2 ^ 84 -> 32 <= E ->
  k * 2 ^ E <= N -> 2 * N + 2 ^ 31 < 2 * (k + 1) * 2 ^ E ->
  rne_val N / 2 ^ E = k.
Proof.
  intros Hk HN HE Hlo Hhi.
  pose proof (pow2_pos E ltac:(lia)) as HpE.
  symmetry. apply Z.div_unique_pos with (r := rne_val N - k * 2 ^ E); [|lia].
  destruct (Z.lt_ge_cases N (2 ^ 53)) as [Hsmall | Hbig].
  - rewrite rne_val_small by assumption. lia.
  - pose proof (rne_shift_le_31 N ltac:(lia)) as Hs31.
    destruct (rne_shift_bounds N Hbig) as [Hs1 _].
    pose proof (rne_val_cases N Hbig) as Hc. cbv zeta in Hc.
    set (s := rne_shift N) in *.
    pose proof (pow2_pos s ltac:(lia)) as Hps.
    assert (Hsplit : 2 ^ E = 2 ^ (E - s) * 2 ^ s).
    { rewrite <- pow2_split by lia. f_equal. lia. }
    pose proof (pow2_pos (E - s) ltac:(lia)) as Hpd.
    assert (H31 : 2 ^ s <= 2 ^ 31) by (apply Z.pow_le_mono_r; lia).
    pose proof (Z.div_mod N (2 ^ s) ltac:(lia)) as Hdm.
    pose proof (Z.mod_pos_bound N (2 ^ s) Hps) as Hr.
    set (q := N / 2 ^ s) in *. set (r := N mod 2 ^ s) in *.
    assert (Hq : k * 2 ^ (E - s) <= q).
    { apply Z.div_le_lower_bound; [lia|]. rewrite Hsplit in Hlo. lia. }
    assert (Hq' : k * 2 ^ E <= q * 2 ^ s).
    { rewrite Hsplit. nia. }
    destruct Hc as [[HV Hr2] | [HV Hr2]]; rewrite HV; nia.
Qed.

(** Just below a multiple of [2^E]: the floor is that multiple's index or
    the one before. *)
Lemma rne_floor_near N E k :
  1 <= k -> 0 <= N < 2 ^ 84 -> 32 <= E ->
  (k - 1) * 2 ^ E + 2 ^ 31 <= N -> N <= k * 2 ^ E ->
  k - 1 <= rne_val N / 2 ^ E <= k.
Proof.
  intros Hk HN HE Hlo Hhi.
  pose proof (pow2_pos E ltac:(lia)) as HpE.
  assert (H31' : 0 < 2 ^ 31) by (apply pow2_pos; lia).
  assert (Hgoal : (k - 1) * 2 ^ E <= rne_val N <= k * 2 ^ E).
  { destruct (Z.lt_ge_cases N (2 ^ 53)) as [Hsmall | Hbig].
    - rewrite rne_val_small by assumption. lia.
    - pose proof (rne_shift_le_31 N ltac:(lia)) as Hs31.
      destruct (rne_shift_bounds N Hbig) as [Hs1 _].
      pose proof (rne_val_cases N Hbig) as Hc. cbv zeta in Hc.
      set (s := rne_shift N) in *.
      pose proof (pow2_pos s ltac:(lia)) as Hps.
      assert (Hsplit : 2 ^ E = 2 ^ (E - s) * 2 ^ s).
      { rewrite <- pow2_split by lia. f_equal. lia. }
      pose proof (pow2_pos (E - s) ltac:(lia)) as Hpd.
      assert (H31 : 2 ^ s <= 2 ^ 31) by (apply Z.pow_le_mono_r; lia).
      pose proof (Z.div_mod N (2 ^ s) ltac:(lia)) as Hdm.
      pose proof (Z.mod_pos_bound N (2 ^ s) Hps) as Hr.
      set (q := N / 2 ^ s) in *. set (r := N mod 2 ^ s) in *.
      destruct Hc as [[HV Hr2] | [HV Hr2]]; rewrite HV.
      + split; [|nia].
        assert ((k - 1) * 2 ^ (E - s) <= q).
        { apply Z.div_le_lower_bound; [lia|]. rewrite Hsplit in Hlo. lia. }
        rewrite Hsplit. nia.
      + split; [nia|].
        destruct (Z.eq_dec r 0) as [Hr0 | Hr0]; [lia|].
        assert (Hne : N <> k * 2 ^ (E - s) * 2 ^ s).
        { intros Heq. apply Hr0. unfold r. rewrite Heq. apply Z.mod_mul. lia. }
        assert (q < k * 2 ^ (E - s)).
        { apply Z.div_lt_upper_bound; [lia|]. rewrite Hsplit in Hhi. lia. }
        rewrite Hsplit. nia. }
  destruct Hgoal as [G1 G2]. split.
  - apply Z.div_le_lower_bound; lia.
  - destruct (Z.eq_dec (rne_val N) (k * 2 ^ E)) as [-> | Hne].
    + rewrite Z.div_mul; lia.
    + assert (rne_val N / 2 ^ E < k); [|lia].
      apply Z.div_lt_upper_bound; lia.
Qed.

(** Close enough below a multiple of [2^E]: the rounding reaches it. *)
Lemma rne_floor_reach N E k :
  2 ^ 53 <= N < 2 ^ 84 -> 32 <= E ->
  N <= k * 2 ^ E -> 2 ^ 54 * (k * 2 ^ E - N) <= N ->
  rne_val N / 2 ^ E = k.
Proof.
  intros HN HE Hhi Hnear.
  pose proof (pow2_pos E ltac:(lia)) as HpE.
  assert (HV : rne_val N = k * 2 ^ E); [|rewrite HV; apply Z.div_mul; lia].
  pose proof (rne_shift_le_31 N ltac:(lia)) as Hs31.
  destruct (rne_shift_bounds N ltac:(lia)) as [Hs1 [_ Hup]].
  pose proof (rne_val_cases N ltac:(lia)) as Hc. cbv zeta in Hc.
  set (s := rne_shift N) in *.
  pose proof (pow2_pos s ltac:(lia)) as Hps.
  assert (Hsplit : 2 ^ E = 2 ^ (E - s) * 2 ^ s).
  { rewrite <- pow2_split by lia. f_equal. lia. }
  assert (Hup' : 2 ^ (53 + s) = 2 ^ 53 * 2 ^ s) by (apply pow2_split; lia).
  pose proof (Z.div_mod N (2 ^ s) ltac:(lia)) as Hdm.
  pose proof (Z.mod_pos_bound N (2 ^ s) Hps) as Hr.
  set (q := N / 2 ^ s) in *. set (r := N mod 2 ^ s) in *.
  set (d := k * 2 ^ E - N) in *.
  assert (Hd : 2 * d < 2 ^ s).
  { assert (Hlt : 2 ^ 54 * d < 2 ^ 53 * 2 ^ s) by lia.
    change (2 ^ 54) with (2 ^ 53 * 2) in Hlt.
    assert (0 < 2 ^ 53) by (apply pow2_pos; lia). nia. }
  destruct (Z.eq_dec d 0) as [Hd0 | Hd0].
  - assert (Hr0 : r = 0).
    { unfold r. replace N with (k * 2 ^ (E - s) * 2 ^ s)
        by (rewrite <- Z.mul_assoc, <- Hsplit; lia).
      apply Z.mod_mul. lia. }
    destruct Hc as [[HV _] | [_ Hr2]]; lia.
  - assert (Hq : q = k * 2 ^ (E - s) - 1 /\ r = 2 ^ s - d).
    { assert (HN' : N = (k * 2 ^ (E - s) - 1) * 2 ^ s + (2 ^ s - d)).
      { unfold d. rewrite Hsplit. lia. }
      symmetry in HN'.
      assert (0 <= 2 ^ s - d < 2 ^ s) by lia.
      split.
      - unfold q. symmetry. apply Z.div_unique_pos with (r := 2 ^ s - d); lia.
      - unfold r. symmetry.
        apply Z.mod_unique_pos with (q := k * 2 ^ (E - s) - 1); lia. }
    destruct Hq as [Hq Hr'].
    destruct Hc as [[_ Hr2] | [HV _]]; [lia|].
    rewrite HV, Hq, Hsplit. lia.
Qed.

End Rounding.

(* ===================================================================== *)
(** ** The literals of overlay.py and the products [int(c * n)]          *)
(* ===================================================================== *)

Section Literals.

Lemma lit_20 : float_literal 20 100 = mkF 7205759403792794 (-55).
Proof. vm_compute. reflexivity. Qed.

Lemma lit_30 : float_literal 30 100 = mkF 5404319552844595 (-54).
Proof. vm_compute. reflexivity. Qed.

Lemma lit_25 : float_literal 25 100 = mkF 4503599627370496 (-54).
Proof. vm_compute. reflexivity. Qed.

Lemma lit_35 : float_literal 35 100 = mkF 6305039478318694 (-54).
Proof. vm_compute. reflexivity. Qed.

Lemma lit_8 : float_literal 8 100 = mkF 5764607523034235 (-56).
Proof. vm_compute. reflexivity. Qed.

Lemma lit_50 : float_literal 5 10 = mkF 4503599627370496 (-53).
Proof. vm_compute. reflexivity. Qed.

(** Each literal is the double nearest to its decimal value. *)
Lemma literals_nearest :
  nearest53 (float_literal 20 100) 20 100 /\
  nearest53 (float_literal 30 100) 30 100 /\
  nearest53 (float_literal 25 100) 25 100 /\
  nearest53 (float_literal 35 100) 35 100 /\
  nearest53 (float_literal 8 100) 8 100 /\
  nearest53 (float_literal 5 10) 5 10 /\
  nearest53 (float_literal 2 100) 2 100 /\
  nearest53 (float_literal 254 10000) 254 10000.
Proof. repeat split; vm_compute; congruence. Qed.

(** The products agree with the multiplication of the library's IEEE 754
    formalisation on every dimension below 4096, and so does the gap. *)
Lemma products_agree_with_library :
  forallb (agree_below 4096)
    [float_literal 20 100; float_literal 30 100; float_literal 25 100;
     float_literal 35 100; float_literal 8 100; float_literal 5 10] = true.
Proof. vm_compute. reflexivity. Qed.

Lemma gap_agrees_with_library :
  spec_int
    (SFdiv 53 1024
       (SFmul 53 1024 (to_spec (float_literal 2 100))
          (binary_normalize 53 1024 96 0 false))
       (to_spec (float_literal 254 10000))) = Some gap_pixels.
Proof. vm_compute. reflexivity. Qed.

Ltac eval_pows :=
  cbn [mant expo];
  repeat match goal with
  | |- context [Z.pow 2 ?e] =>
      let v := eval vm_compute in (Z.pow 2 e) in
      progress change (Z.pow 2 e) with v
  end.

Ltac zdiv := Z.div_mod_to_equations; lia.

Ltac percent_setup lit E :=
  unfold percent, max_dim; intros;
  rewrite lit, py_int_fmul_int by (cbn [mant expo]; eval_pows; lia);
  cbn [mant expo]; change (2 ^ (- _)) with (2 ^ E).

Lemma pct20 n : 0 <= n <= max_dim ->
  py_int (fmul_int (float_literal 20 100) n) = percent 20 n.
Proof. percent_setup lit_20 55. apply rne_floor_exact; eval_pows; zdiv. Qed.

Lemma pct25 n : 0 <= n <= max_dim ->
  py_int (fmul_int (float_literal 25 100) n) = percent 25 n.
Proof. percent_setup lit_25 54. apply rne_floor_exact; eval_pows; zdiv. Qed.

Lemma pct50 n : 0 <= n <= max_dim ->
  py_int (fmul_int (float_literal 5 10) n) = percent 50 n.
Proof. percent_setup lit_50 53. apply rne_floor_exact; eval_pows; zdiv. Qed.

Lemma pct8 n : 0 <= n <= max_dim ->
  py_int (fmul_int (float_literal 8 100) n) = percent 8 n.
Proof. percent_setup lit_8 56. apply rne_floor_exact; eval_pows; zdiv. Qed.

(** The double [0.3] lies below 3/10, but so little that the product with
    a multiple of 10 is rounded back up to the integer. *)
Lemma pct30 n : 0 <= n <= max_dim ->
  py_int (fmul_int (float_literal 30 100) n) = percent 30 n.
Proof.
  percent_setup lit_30 54.
  destruct (Z.eq_dec (n mod 10) 0) as [Hj | Hj].
  - destruct (Z.eq_dec n 0) as [-> | Hn0].
    + vm_compute. reflexivity.
    + apply rne_floor_reach; eval_pows; zdiv.
  - apply rne_floor_exact; eval_pows; zdiv.
Qed.

(** The double [0.35] lies below 7/20 by more: the product with a multiple
    of 20 may stay below the integer, and [int] then loses one. *)
Lemma pct35_exact n : 0 <= n <= max_dim -> n mod 20 <> 0 ->
  py_int (fmul_int (float_literal 35 100) n) = percent 35 n.
Proof. percent_setup lit_35 54. apply rne_floor_exact; eval_pows; zdiv. Qed.

Lemma pct35_near n : 0 <= n <= max_dim ->
  percent 35 n - 1 <= py_int (fmul_int (float_literal 35 100) n) <= percent 35 n.
Proof.
  intros H. destruct (Z.eq_dec (n mod 20) 0) as [Hj | Hj].
  - destruct (Z.eq_dec n 0) as [-> | Hn0].
    + vm_compute. split; discriminate.
    + revert H. percent_setup lit_35 54.
      apply rne_floor_near; eval_pows; zdiv.
  - rewrite pct35_exact by assumption. lia.
Qed.

Lemma gap_pixels_75 : gap_pixels = 75.
Proof. vm_compute. reflexivity. Qed.

End Literals.

(* ===================================================================== *)
(** ** The geometry computed by [OverlayRenderer.__init__]               *)
(* ===================================================================== *)

Section Geometry.

Lemma init_unfold w h :
  init w h =
    mkRenderer w h
      (py_int (fmul_int (float_literal 25 100) w),
       py_int (fmul_int (float_literal 35 100) h),
       py_int (fmul_int (float_literal 25 100) w)
         + py_int (fmul_int (float_literal 20 100) w),
       py_int (fmul_int (float_literal 35 100) h)
         + py_int (fmul_int (float_literal 30 100) h))
      (py_int (fmul_int (float_literal 8 100) w))
      (py_int (fmul_int (float_literal 25 100) w)
         + py_int (fmul_int (float_literal 20 100) w)
         + gap_pixels + py_int (fmul_int (float_literal 8 100) w),
       py_int (fmul_int (float_literal 5 10) h)).
Proof. reflexivity. Qed.

(** Some frame sizes, as Python computes them. *)
Example init_640_480 :
  init 640 480 = mkRenderer 640 480 (160, 168, 288, 312) 51 (414, 240).
Proof. vm_compute. reflexivity. Qed.

Example init_1280_720 :
  init 1280 720 = mkRenderer 1280 720 (320, 251, 576, 467) 102 (753, 360).
Proof. vm_compute. reflexivity. Qed.

Example init_100_100 :
  init 100 100 = mkRenderer 100 100 (25, 35, 45, 65) 8 (128, 50).
Proof. vm_compute. reflexivity. Qed.

(** The lesion box and the coin in terms of truncated percentages, the top
    of the box left as Python computes it. *)
Lemma init_percentages w h :
  0 <= w <= max_dim -> 0 <= h <= max_dim ->
  init w h =
    mkRenderer w h
      (percent 25 w,
       py_int (fmul_int (float_literal 35 100) h),
       percent 25 w + percent 20 w,
       py_int (fmul_int (float_literal 35 100) h) + percent 30 h)
      (percent 8 w)
      (percent 25 w + percent 20 w + gap_pixels + percent 8 w, percent 50 h).
Proof.
  intros Hw Hh. rewrite init_unfold.
  rewrite (pct25 w Hw), (pct20 w Hw), (pct30 h Hh), (pct8 w Hw), (pct50 h Hh).
  reflexivity.
Qed.

(** C1, as stated, fails: for a 1280x720 frame the top of the lesion box
    is 251, while 35% of 720 is 252, because the double [0.35] is less than
    7/20 and [0.35 * 720] is rounded to the double just below 252. *)
Lemma init_not_spec_geometry_720p : ~ spec_geometry 1280 720 (init 1280 720).
Proof.
  intros [Hbox _]. rewrite init_1280_720 in Hbox. vm_compute in Hbox.
  discriminate Hbox.
Qed.

(** C1 (amended): for all frame dimensions up to [max_dim], the lesion box
    is [(x, y, x + w, y + h)] with [x] = 25% of the width, [w] = 20% of the
    width and [h] = 30% of the height, all truncated; [y] is
    [int(0.35 * height)] in double arithmetic, which is the truncated 35% of
    the height or one less, and is the truncated 35% whenever the height is
    not a multiple of 20.  The coin radius is the truncated 8% of the width,
    the coin centre is at the right edge of the box plus the gap plus the
    radius, and at the truncated 50% of the height. *)
Theorem init_geometry w h :
  0 <= w <= max_dim -> 0 <= h <= max_dim ->
  let y := py_int (fmul_int (float_literal 35 100) h) in
  lesion_box (init w h) =
    (percent 25 w, y, percent 25 w + percent 20 w, y + percent 30 h)
  /\ percent 35 h - 1 <= y <= percent 35 h
  /\ (h mod 20 <> 0 -> y = percent 35 h)
  /\ coin_radius (init w h) = percent 8 w
  /\ coin_center (init w h) =
       (lesion_right (init w h) + gap_pixels + coin_radius (init w h),
        percent 50 h)
  /\ lesion_right (init w h) = percent 25 w + percent 20 w.
Proof.
  intros Hw Hh y. unfold lesion_right. rewrite (init_percentages w h Hw Hh).
  cbn [lesion_box coin_radius coin_center fst snd].
  fold y. repeat split.
  - apply (pct35_near h Hh).
  - apply (pct35_near h Hh).
  - intros Hm. apply (pct35_exact h Hh Hm).
Qed.

Lemma init_geometry_witness :
  let y := py_int (fmul_int (float_literal 35 100) 720) in
  lesion_box (init 1280 720) =
    (percent 25 1280, y, percent 25 1280 + percent 20 1280, y + percent 30 720)
  /\ percent 35 720 - 1 <= y <= percent 35 720
  /\ (720 mod 20 <> 0 -> y = percent 35 720)
  /\ coin_radius (init 1280 720) = percent 8 1280
  /\ coin_center (init 1280 720) =
       (lesion_right (init 1280 720) + gap_pixels + coin_radius (init 1280 720),
        percent 50 720)
  /\ lesion_right (init 1280 720) = percent 25 1280 + percent 20 1280.
Proof. apply (init_geometry 1280 720); unfold max_dim; lia. Defined.

(** C2: for width and height of at least 100 (and at most [max_dim]), the
    lesion box lies inside [[0,width) x [0,height)]. *)
Theorem lesion_box_in_frame w h :
  100 <= w <= max_dim -> 100 <= h <= max_dim ->
  box_in_frame (lesion_box (init w h)) w h.
Proof.
  intros Hw Hh.
  rewrite (init_percentages w h) by lia. cbn [lesion_box].
  pose proof (pct35_near h ltac:(lia)) as Hy.
  unfold box_in_frame, percent in *.
  Z.div_mod_to_equations. lia.
Qed.

Lemma lesion_box_in_frame_witness :
  box_in_frame (lesion_box (init 640 480)) 640 480.
Proof. apply (lesion_box_in_frame 640 480); unfold max_dim; lia. Defined.

(** C3, as stated, fails: the leftmost point of the coin circle is not
    strictly beyond the right edge plus the gap, it is exactly there. *)
Lemma coin_left_not_beyond_gap :
  ~ (lesion_right (init 640 480) + gap_pixels < coin_left (init 640 480)).
Proof. vm_compute. intros H. discriminate H. Qed.

(** C3 (amended): for every frame size, the leftmost point of the coin
    circle is exactly the right edge of the lesion box plus the gap, hence
    strictly to the right of that edge. *)
Theorem coin_left_is_edge_plus_gap w h :
  coin_left (init w h) = lesion_right (init w h) + gap_pixels
  /\ lesion_right (init w h) < coin_left (init w h).
Proof.
  unfold coin_left, lesion_right. rewrite init_unfold.
  cbn [lesion_box coin_radius coin_center fst snd].
  rewrite gap_pixels_75. lia.
Qed.

(** C4: the gap is the same number of pixels for every frame, but that
    number is 75, not the 7 or 8 pixels of a 2 mm offset: the expression
    converts 0.02 m (20 mm) where 2 mm is 0.002 m. *)
Theorem gap_is_75_pixels :
  gap_pixels = 75
  /\ ~ (7 <= gap_pixels <= 8)
  /\ py_int (fdiv (fmul_int (float_literal 2 1000) 96) (float_literal 254 10000)) = 7
  /\ forall w h, coin_left (init w h) - lesion_right (init w h) = 75.
Proof.
  split; [apply gap_pixels_75|]. split; [rewrite gap_pixels_75; lia|].
  split; [vm_compute; reflexivity|].
  intros w h. unfold coin_left, lesion_right. rewrite init_unfold.
  cbn [lesion_box coin_radius coin_center fst snd].
  rewrite gap_pixels_75. lia.
Qed.

(** C9: there are frames of width and height at least 100, the 100x100
    frame among them, whose coin circle reaches the right frame edge or
    goes beyond it. *)
Theorem coin_circle_leaves_small_frame :
  coin_right (init 100 100) = 136
  /\ exists w h, 100 <= w /\ 100 <= h /\ w <= coin_right (init w h).
Proof.
  split; [vm_compute; reflexivity|].
  exists 100, 100. rewrite init_100_100. vm_compute.
  repeat split; discriminate.
Qed.

End Geometry.

(* ===================================================================== *)
(** ** Running computations                                              *)
(* ===================================================================== *)

Section Monad.

Lemma bind_run {A B} (m : M A) (f : A -> M B) w a w' :
  m w = Some (a, w') -> (m ≫= f) w = f a w'.
Proof. intros H. unfold mbind, M_bind. rewrite H. reflexivity. Qed.

Lemma mret_run {A} (a : A) (w : World) : (mret a : M A) w = Some (a, w).
Proof. reflexivity. Qed.

Lemma alloc_run img w :
  alloc img w =
    Some (fresh (dom (heap w)),
          mkWorld (<[fresh (dom (heap w)) := img]> (heap w)) (button_clicked w)
                  (button_rect w) (trace w)).
Proof. reflexivity. Qed.

Lemma load_run r w img : heap w !! r = Some img -> load r w = Some (img, w).
Proof. intros H. unfold load. rewrite H. reflexivity. Qed.

Lemma draw_on_run r op w img :
  heap w !! r = Some img ->
  draw_on r op w =
    Some (tt, mkWorld (<[r := draw op img]> (heap w)) (button_clicked w)
                      (button_rect w) (trace w)).
Proof. intros H. unfold draw_on. rewrite H. reflexivity. Qed.

Lemma emit_run e w :
  emit e w =
    Some (tt, mkWorld (heap w) (button_clicked w) (button_rect w) (trace w ++ [e])).
Proof. reflexivity. Qed.

Lemma print_run line w :
  print line w =
    Some (tt, mkWorld (heap w) (button_clicked w) (button_rect w)
                      (trace w ++ [EPrint line])).
Proof. reflexivity. Qed.

Lemma set_button_rect_run b w :
  set_button_rect b w = Some (tt, mkWorld (heap w) (button_clicked w) b (trace w)).
Proof. reflexivity. Qed.

Lemma set_button_clicked_run b w :
  set_button_clicked b w = Some (tt, mkWorld (heap w) b (button_rect w) (trace w)).
Proof. reflexivity. Qed.

Lemma get_button_clicked_run w :
  get_button_clicked w = Some (button_clicked w, w).
Proof. reflexivity. Qed.

End Monad.

Ltac run_with lem :=
  erewrite bind_run; [|apply lem];
  cbn [heap button_clicked button_rect trace].

Ltac run_draw lem :=
  erewrite bind_run; [|apply lem; cbn [heap]; apply lookup_insert_eq];
  cbn [heap button_clicked button_rect trace].

(* ===================================================================== *)
(** ** The drawing methods                                               *)
(* ===================================================================== *)

Section Drawing.

Lemma fresh_not_bound (h : gmap ref Image) r img :
  h !! r = Some img -> fresh (dom h) <> r.
Proof.
  intros H Heq. apply (is_fresh (dom h)). rewrite Heq.
  apply elem_of_dom. eauto.
Qed.

Lemma draw_static_guides_run self frame w img :
  heap w !! frame = Some img ->
  draw_static_guides self frame w =
    Some (fresh (dom (heap w)),
          mkWorld (<[fresh (dom (heap w)) := with_guides self img]> (heap w))
                  (button_clicked w) (button_rect w) (trace w)).
Proof.
  intros H. unfold draw_static_guides, with_guides, copy.
  destruct (lesion_box self) as [[[x1 y1] x2] y2].
  erewrite bind_run.
  2:{ erewrite bind_run; [|apply load_run; eassumption]. apply alloc_run. }
  run_draw draw_on_run. run_draw draw_on_run.
  rewrite !insert_insert_eq. reflexivity.
Qed.

Lemma show_feedback_run self frame message color w img :
  heap w !! frame = Some img ->
  show_feedback self frame message color w =
    Some (frame,
          mkWorld (<[frame := with_feedback self message color img]> (heap w))
                  (button_clicked w) (button_rect w) (trace w)).
Proof.
  intros H. unfold show_feedback, with_feedback.
  destruct (lesion_box self) as [[[x1 y1] x2] y2].
  erewrite bind_run; [|apply draw_on_run; eassumption].
  cbn [heap button_clicked button_rect trace].
  run_draw draw_on_run. run_draw draw_on_run.
  rewrite !insert_insert_eq. reflexivity.
Qed.

Lemma with_guides_drawn self img :
  drawn (with_guides self img) =
    drawn img ++
      [Circle (coin_center self) (coin_radius self) green 2;
       Rectangle ((lesion_box self).1.1.1, (lesion_box self).1.1.2)
                 ((lesion_box self).1.2, (lesion_box self).2) green 2].
Proof.
  unfold with_guides. destruct (lesion_box self) as [[[x1 y1] x2] y2].
  cbn. rewrite <- app_assoc. reflexivity.
Qed.

Lemma with_feedback_texts self message color img :
  texts (with_feedback self message color img) =
    texts img ++ [message; "Align coin inside circle"; "Place lesion here"].
Proof.
  unfold with_feedback, texts. destruct (lesion_box self) as [[[x1 y1] x2] y2].
  cbn [draw drawn]. rewrite !omap_app. cbn. rewrite <- !app_assoc. reflexivity.
Qed.

Lemma with_guides_texts self img : texts (with_guides self img) = texts img.
Proof.
  unfold texts. rewrite with_guides_drawn, omap_app. cbn. apply app_nil_r.
Qed.

(** C5: [draw_static_guides] returns a new buffer that holds the input
    image with the circle and the rectangle drawn on it; the buffer of the
    caller, and every other buffer, is left as it was. *)
Theorem draw_static_guides_copies self frame img w :
  heap w !! frame = Some img ->
  exists overlay w',
    draw_static_guides self frame w = Some (overlay, w')
    /\ overlay <> frame
    /\ heap w' !! frame = Some img
    /\ heap w' !! overlay = Some (with_guides self img)
    /\ drawn (with_guides self img) =
         drawn img ++
           [Circle (coin_center self) (coin_radius self) green 2;
            Rectangle ((lesion_box self).1.1.1, (lesion_box self).1.1.2)
                      ((lesion_box self).1.2, (lesion_box self).2) green 2]
    /\ (forall r, r <> overlay -> heap w' !! r = heap w !! r).
Proof.
  intros H. eexists _, _. split; [apply draw_static_guides_run; eassumption|].
  cbn [heap]. pose proof (fresh_not_bound _ _ _ H) as Hne.
  split; [assumption|].
  split; [rewrite lookup_insert_ne by assumption; assumption|].
  split; [apply lookup_insert_eq|].
  split; [apply with_guides_drawn|].
  intros r Hr. apply lookup_insert_ne. congruence.
Qed.

(** C10: [show_feedback] draws the banner and the two labels on the buffer
    it is given and returns that very buffer: the caller's image changes,
    and no buffer is created. *)
Theorem show_feedback_in_place self frame message color img w :
  heap w !! frame = Some img ->
  exists w',
    show_feedback self frame message color w = Some (frame, w')
    /\ heap w' !! frame = Some (with_feedback self message color img)
    /\ texts (with_feedback self message color img) =
         texts img ++ [message; "Align coin inside circle"; "Place lesion here"]
    /\ heap w' !! frame <> heap w !! frame
    /\ dom (heap w') = dom (heap w)
    /\ (forall r, r <> frame -> heap w' !! r = heap w !! r).
Proof.
  intros H. eexists. split; [apply show_feedback_run; eassumption|].
  cbn [heap]. rewrite lookup_insert_eq.
  split; [reflexivity|].
  split; [apply with_feedback_texts|].
  split.
  { rewrite H. intros Heq. injection Heq as Heq.
    apply (f_equal (fun i => length (texts i))) in Heq.
    rewrite with_feedback_texts, length_app in Heq. cbn in Heq. lia. }
  split; [apply dom_insert_lookup_L; eauto|].
  intros r Hr. apply lookup_insert_ne. congruence.
Qed.

End Drawing.

(* ===================================================================== *)
(** ** The capture loop                                                  *)
(* ===================================================================== *)

Ltac splits := repeat match goal with |- _ /\ _ => split end.

Section Loop.

Context (v : Variant) (r : OverlayRenderer) (width height : Z)
        (dir : string) (tsize : Z * Z).

Lemma mouse_callback_run ev w :
  mouse_callback ev w =
    Some (tt, mkWorld (heap w) (clicked_after w [ev]) (button_rect w) (trace w)).
Proof.
  unfold mouse_callback, clicked_after, hits, mbind, M_bind, get_button_rect.
  destruct w as [h c rect tr]; simpl.
  destruct rect as [[[[bx by_] bw] bh]|]; simpl.
  - destruct (_ && _); simpl.
    + rewrite orb_true_r. reflexivity.
    + rewrite !orb_false_r. reflexivity.
  - rewrite orb_false_r. reflexivity.
Qed.

Lemma deliver_run evs w :
  deliver evs w =
    Some (tt, mkWorld (heap w) (clicked_after w evs) (button_rect w) (trace w)).
Proof.
  revert w. induction evs as [|ev evs IH]; intros w.
  - destruct w as [h c rect tr]. unfold clicked_after. simpl.
    unfold mret, M_ret. destruct rect; simpl; rewrite orb_false_r; reflexivity.
  - simpl. erewrite bind_run; [|apply mouse_callback_run].
    rewrite IH. unfold clicked_after. simpl.
    destruct (button_rect w); simpl.
    + rewrite orb_false_r, orb_assoc. reflexivity.
    + rewrite !orb_false_r. reflexivity.
Qed.

Lemma waitKey_run evs raw w :
  waitKey evs raw w =
    Some (raw, mkWorld (heap w) (clicked_after w evs) (button_rect w) (trace w)).
Proof. unfold waitKey. erewrite bind_run; [|apply deliver_run]. reflexivity. Qed.

Lemma imshow_run win frame w img :
  heap w !! frame = Some img ->
  imshow win frame w =
    Some (tt, mkWorld (heap w) (button_clicked w) (button_rect w)
                      (trace w ++ [EImshow win img])).
Proof.
  intros H. unfold imshow. erewrite bind_run; [|apply load_run; eassumption].
  reflexivity.
Qed.

Lemma imwrite_run path frame ok w img :
  heap w !! frame = Some img ->
  imwrite path frame ok w =
    Some (ok, mkWorld (heap w) (button_clicked w) (button_rect w)
                      (trace w ++ [EImwrite path img ok])).
Proof.
  intros H. unfold imwrite. erewrite bind_run; [|apply load_run; eassumption].
  reflexivity.
Qed.

(** An iteration without a frame. *)
Lemma loop_body_dropped captured inp w :
  grab inp = None ->
  loop_body v r width height dir tsize captured inp w =
    Some ((captured, match v with Webcam => Break | Phone => Continue end),
          mkWorld (heap w) (button_clicked w) (button_rect w)
                  (trace w ++ match v with
                              | Webcam => []
                              | Phone => [EPrint "WARNING: Frame dropped"]
                              end)).
Proof.
  intros Hg. unfold loop_body. rewrite Hg. destruct v.
  - rewrite app_nil_r. destruct w; reflexivity.
  - reflexivity.
Qed.

(** An iteration after the capture. *)
Lemma loop_body_frozen inp shot w :
  grab inp = Some shot ->
  loop_body v r width height dir tsize true inp w =
    Some ((true, if Z.land (raw_key inp) 255 =? ord_q then Break else Continue),
          mkWorld (heap_after (heap w) (to_image shot) (frozen_view r shot))
                  (clicked_after w (pending inp)) (button_rect w)
                  (trace w ++ [EImshow window (frozen_view r shot)])).
Proof.
  intros Hg. unfold loop_body. rewrite Hg.
  run_with alloc_run. cbv beta iota.
  run_draw draw_static_guides_run.
  run_draw show_feedback_run.
  rewrite !insert_insert_eq.
  run_draw imshow_run.
  run_with waitKey_run.
  unfold heap_after, frozen_view.
  destruct (_ =? _); reflexivity.
Qed.

(** An iteration before the capture. *)
Lemma loop_body_live inp shot w :
  grab inp = Some shot ->
  let view := live_view r width height tsize shot in
  let fire := fires width height inp w in
  loop_body v r width height dir tsize false inp w =
    Some ((fire, if Z.land (raw_key inp) 255 =? ord_q then Break else Continue),
          mkWorld (heap_after (heap w) (to_image shot) view)
                  (if fire then false
                   else clicked_after (with_rect w (button_box width height))
                                      (pending inp))
                  (Some (button_box width height))
                  (trace w ++ [EImshow window view]
                     ++ (if fire then capture_events dir inp view else []))).
Proof.
  intros Hg view fire. unfold loop_body. rewrite Hg.
  run_with alloc_run. cbv beta iota.
  run_draw draw_static_guides_run.
  run_draw show_feedback_run.
  cbv zeta.
  run_with set_button_rect_run.
  run_draw draw_on_run. run_draw draw_on_run. run_draw draw_on_run.
  rewrite !insert_insert_eq.
  fold (button_box width height).
  change (draw _ (draw _ (draw _ (with_feedback r live_message (0, 255, 0)
                                    (with_guides r (to_image shot))))))
    with view.
  run_draw imshow_run.
  run_with waitKey_run.
  run_with get_button_clicked_run.
  change (clicked_after _ (pending inp))
    with (clicked_after (with_rect w (button_box width height)) (pending inp)).
  fold (fires width height inp w). fold fire.
  destruct fire.
  - erewrite bind_run.
    2:{ run_draw imwrite_run. run_with print_run. run_with set_button_clicked_run.
        apply mret_run. }
    cbv beta iota. rewrite <- !app_assoc.
    destruct (_ =? _); reflexivity.
  - run_with @mret_run. rewrite app_nil_r.
    destruct (_ =? _); reflexivity.
Qed.

Lemma main_loop_cons captured inp rest w c ctl w1 :
  loop_body v r width height dir tsize captured inp w = Some ((c, ctl), w1) ->
  main_loop v r width height dir tsize captured (inp :: rest) w =
    match ctl with
    | Break => Some (Exited c, w1)
    | Continue => main_loop v r width height dir tsize c rest w1
    end.
Proof.
  intros H. cbn [main_loop]. erewrite bind_run; [|eassumption].
  destruct ctl; reflexivity.
Qed.

(** Once [captured] is true, the loop only displays frozen frames. *)
Lemma main_loop_frozen rest w :
  exists fin w' n,
    main_loop v r width height dir tsize true rest w = Some (fin, w')
    /\ final_captured fin = true
    /\ (n <= length rest)%nat
    /\ trace w' = trace w ++ flat_map (frozen_events v r) (take n rest)
    /\ (fin = Looping true -> n = length rest)
    /\ (forall i inp, take n rest !! i = Some inp -> quits inp ->
          fin = Exited true /\ n = S i).
Proof.
  revert w. induction rest as [|inp rest IH]; intros w.
  - exists (Looping true), w, 0%nat. cbn. rewrite app_nil_r.
    splits; try reflexivity; try lia. intros i inp H; discriminate H.
  - destruct (grab inp) as [shot|] eqn:Hg.
    + rewrite (main_loop_cons _ _ _ _ _ _ _ (loop_body_frozen inp shot w Hg)).
      destruct (Z.eqb_spec (Z.land (raw_key inp) 255) ord_q) as [Hq | Hq].
      * eexists (Exited true), _, 1%nat. cbn [trace take flat_map length].
        unfold frozen_events at 1. rewrite Hg, app_nil_r.
        splits; try reflexivity; try lia; try discriminate.
        intros i inp' Hi _. destruct i; [split; reflexivity | discriminate].
      * destruct (IH (mkWorld (heap_after (heap w) (to_image shot) (frozen_view r shot))
                        (clicked_after w (pending inp)) (button_rect w)
                        (trace w ++ [EImshow window (frozen_view r shot)])))
          as (fin & w' & n & Hrun & Hc & Hn & Htr & Hloop & Hquit).
        exists fin, w', (S n). cbn [trace take flat_map length] in *.
        unfold frozen_events at 1. rewrite Hg, Htr, <- app_assoc.
        splits; try assumption; try reflexivity; try lia.
        { intros Hf. rewrite (Hloop Hf). reflexivity. }
        intros i inp' Hi Hq'. destruct i as [|i]; cbn in Hi.
        { injection Hi as <-. destruct Hq' as [_ Hq']. contradiction. }
        destruct (Hquit i inp' Hi Hq') as [-> ->]. split; reflexivity.
    + rewrite (main_loop_cons _ _ _ _ _ _ _ (loop_body_dropped true inp w Hg)).
      destruct v eqn:Hv.
      * eexists (Exited true), _, 1%nat. cbn [trace take flat_map length].
        unfold frozen_events at 1. rewrite Hg.
        splits; try reflexivity; try lia; try discriminate.
        intros i inp' Hi _. destruct i; [split; reflexivity | discriminate].
      * destruct (IH (mkWorld (heap w) (button_clicked w) (button_rect w)
                        (trace w ++ [EPrint "WARNING: Frame dropped"])))
          as (fin & w' & n & Hrun & Hc & Hn & Htr & Hloop & Hquit).
        exists fin, w', (S n). cbn [trace take flat_map length] in *.
        unfold frozen_events at 1. rewrite Hg, Htr, <- app_assoc.
        splits; try assumption; try reflexivity; try lia.
        { intros Hf. rewrite (Hloop Hf). reflexivity. }
        intros i inp' Hi Hq'. destruct i as [|i]; cbn in Hi.
        { injection Hi as <-. destruct Hq' as [[s Hs] _]. congruence. }
        destruct (Hquit i inp' Hi Hq') as [-> ->]. split; reflexivity.
Qed.


Lemma frozen_events_no_imwrite ins :
  imwrite_calls (flat_map (frozen_events v r) ins) = []
  /\ files_written (flat_map (frozen_events v r) ins) = [].
Proof.
  induction ins as [|inp ins [IH1 IH2]]; [split; reflexivity|].
  cbn [flat_map]. unfold imwrite_calls, files_written in *.
  rewrite !omap_app, IH1, IH2, !app_nil_r. unfold frozen_events.
  destruct (grab inp); [|destruct v]; split; reflexivity.
Qed.

Lemma frozen_view_texts shot :
  texts (frozen_view r shot) =
    [frozen_message; "Align coin inside circle"; "Place lesion here"].
Proof.
  unfold frozen_view. rewrite with_feedback_texts, with_guides_texts. reflexivity.
Qed.

Lemma live_view_texts shot :
  texts (live_view r width height tsize shot) =
    [live_message; "Align coin inside circle"; "Place lesion here"; "CAPTURE"].
Proof.
  unfold live_view, with_button. destruct (button_box width height) as [[[bx by_] bw] bh].
  unfold texts at 1. cbn [draw drawn]. rewrite !omap_app. cbn [omap].
  fold (texts (with_feedback r live_message (0, 255, 0) (with_guides r (to_image shot)))).
  rewrite with_feedback_texts, with_guides_texts. reflexivity.
Qed.

Lemma frozen_view_banner shot : frozen_banner (frozen_view r shot).
Proof.
  unfold frozen_banner. rewrite frozen_view_texts. split.
  - apply list_elem_of_here.
  - rewrite !elem_of_cons, elem_of_nil. intros [H | [H | [H | []]]]; discriminate H.
Qed.

Lemma frozen_events_shown ins :
  Forall frozen_banner (shown (flat_map (frozen_events v r) ins)).
Proof.
  induction ins as [|inp ins IH]; [constructor|].
  cbn [flat_map]. unfold shown in *. rewrite omap_app.
  apply Forall_app. split; [|assumption].
  unfold frozen_events. destruct (grab inp) as [shot|]; [|destruct v; constructor].
  cbn. constructor; [apply frozen_view_banner | constructor].
Qed.

Lemma quits_exit fin n (rest : list IterInput) :
  final_captured fin = true ->
  (fin = Looping true -> n = length rest) ->
  (forall i it, take n rest !! i = Some it -> quits it ->
     fin = Exited true /\ n = S i) ->
  Exists quits rest -> fin = Exited true.
Proof.
  intros Hc Hloop Hquit Hex. destruct fin as [c | c]; cbn in Hc; subst c.
  - reflexivity.
  - rewrite (Hloop eq_refl), take_ge in Hquit by lia.
    apply Exists_exists in Hex as (it & Hin & Hq).
    apply list_elem_of_lookup in Hin as [i Hi].
    destruct (Hquit i it Hi Hq) as [Hfin _]. discriminate Hfin.
Qed.

(** A capture, followed by any continuation of the session. *)
Lemma capture_then_frozen inp rest shot w :
  grab inp = Some shot ->
  fires width height inp w = true ->
  let view := live_view r width height tsize shot in
  exists fin w' n,
    main_loop v r width height dir tsize false (inp :: rest) w = Some (fin, w')
    /\ final_captured fin = true
    /\ (n <= length rest)%nat
    /\ trace w' =
         trace w ++ [EImshow window view] ++ capture_events dir inp view
           ++ flat_map (frozen_events v r) (take n rest)
    /\ (fin = Looping true -> n = length rest)
    /\ (Z.land (raw_key inp) 255 = ord_q -> fin = Exited true /\ n = 0%nat)
    /\ (forall i it, take n rest !! i = Some it -> quits it ->
          fin = Exited true /\ n = S i)
    /\ (Exists quits rest -> fin = Exited true).
Proof.
  intros Hg Hfire view.
  pose proof (loop_body_live inp shot w Hg) as Hbody. cbv zeta in Hbody.
  rewrite Hfire in Hbody. fold view in Hbody.
  rewrite (main_loop_cons _ _ _ _ _ _ _ Hbody).
  destruct (Z.eqb_spec (Z.land (raw_key inp) 255) ord_q) as [Hq | Hq].
  - eexists (Exited true), _, 0%nat. cbn [trace take flat_map].
    split; [reflexivity|]. split; [reflexivity|]. split; [lia|].
    split; [rewrite app_nil_r; reflexivity|].
    split; [discriminate|].
    split; [intros _; split; reflexivity|].
    split; [intros i it Hi; discriminate Hi | reflexivity].
  - match goal with |- context [main_loop _ _ _ _ _ _ true rest ?w1] =>
      destruct (main_loop_frozen rest w1)
        as (fin & w' & n & Hrun & Hc & Hn & Htr & Hloop & Hquit)
    end.
    exists fin, w', n. cbn [trace] in Htr.
    split; [assumption|]. split; [assumption|]. split; [assumption|].
    split; [rewrite Htr, <- !app_assoc; reflexivity|].
    split; [assumption|].
    split; [intros Hq'; contradiction|]. split; [assumption|].
    apply (quits_exit fin n rest Hc Hloop Hquit).
Qed.

(** C8 (amended): on a capture trigger [captured] becomes true and the
    success message is printed whether or not the image was written. *)
Theorem capture_ignores_write_result inp shot w :
  grab inp = Some shot ->
  fires width height inp w = true ->
  let view := live_view r width height tsize shot in
  exists ctl w',
    loop_body v r width height dir tsize false inp w = Some ((true, ctl), w')
    /\ button_clicked w' = false
    /\ trace w' =
         trace w ++
           [EImshow window view;
            EImwrite (capture_path dir inp) view (write_ok inp);
            EPrint (nl +:+ check_mark +:+ " IMAGE CAPTURED: " +:+ capture_path dir inp)]
    /\ (write_ok inp = false ->
        files_written (trace w') = files_written (trace w)).
Proof.
  intros Hg Hfire view.
  pose proof (loop_body_live inp shot w Hg) as Hbody. cbv zeta in Hbody.
  rewrite Hfire in Hbody. fold view in Hbody.
  eexists _, _. split; [exact Hbody|]. cbn [button_clicked trace].
  splits; try reflexivity.
  intros Hok. unfold files_written, capture_events. rewrite Hok, omap_app.
  cbn. apply app_nil_r.
Qed.

(** The quit key ends the loop, before and after the capture. *)
Lemma main_loop_quits ins : forall captured w,
  Exists quits ins ->
  exists c w', main_loop v r width height dir tsize captured ins w = Some (Exited c, w').
Proof.
  induction ins as [|inp ins IH]; intros captured w Hex.
  - inversion Hex.
  - destruct (grab inp) as [shot|] eqn:Hg.
    + assert (Hbody : exists c w1,
        loop_body v r width height dir tsize captured inp w =
          Some ((c, if Z.land (raw_key inp) 255 =? ord_q then Break else Continue), w1)).
      { destruct captured.
        - eexists _, _. apply loop_body_frozen. eassumption.
        - eexists _, _. apply loop_body_live. eassumption. }
      destruct Hbody as (c & w1 & Hbody).
      rewrite (main_loop_cons _ _ _ _ _ _ _ Hbody).
      destruct (Z.eqb_spec (Z.land (raw_key inp) 255) ord_q) as [Hq | Hq].
      * eauto.
      * apply IH. apply Exists_cons in Hex as [[_ Hq'] | Hex]; [contradiction | assumption].
    + rewrite (main_loop_cons _ _ _ _ _ _ _ (loop_body_dropped captured inp w Hg)).
      destruct v.
      * eauto.
      * apply IH. apply Exists_cons in Hex as [[[s Hs] _] | Hex]; [congruence | assumption].
Qed.

End Loop.

(* ===================================================================== *)
(** ** A capture and the rest of the session                             *)
(* ===================================================================== *)

Section CaptureSession.

(** C6 (amended): when a capture trigger fires in an iteration, the loop
    issues exactly one image write, to
    captured_images/capture_<timestamp>.png, which leaves that one file
    when the write succeeds and no file when it fails, and sets
    [captured]; from then on [captured] stays true, every iteration that
    gets a frame displays the frozen banner and does nothing else, no
    further write is issued whatever the inputs are, and the quit key ends
    the loop. *)
Theorem capture_freezes_session v r width height tsize inp rest shot w :
  grab inp = Some shot ->
  fires width height inp w = true ->
  let view := live_view r width height tsize shot in
  let path := "captured_images/capture_" +:+ now inp +:+ ".png" in
  let capture :=
    [EImshow window view;
     EImwrite path view (write_ok inp);
     EPrint (nl +:+ check_mark +:+ " IMAGE CAPTURED: " +:+ path)] in
  exists fin w' n,
    let later := flat_map (frozen_events v r) (take n rest) in
    main_loop v r width height "captured_images" tsize false (inp :: rest) w
      = Some (fin, w')
    /\ final_captured fin = true
    /\ (n <= length rest)%nat
    /\ trace w' = trace w ++ capture ++ later
    /\ imwrite_calls (capture ++ later) = [path]
    /\ files_written (capture ++ later) = (if write_ok inp then [path] else [])
    /\ imwrite_calls later = []
    /\ Forall frozen_banner (shown later)
    /\ (fin = Looping true -> n = length rest)
    /\ (Z.land (raw_key inp) 255 = ord_q -> fin = Exited true /\ n = 0%nat)
    /\ (forall i it, take n rest !! i = Some it -> quits it ->
          fin = Exited true /\ n = S i)
    /\ (Exists quits rest -> fin = Exited true).
Proof.
  intros Hg Hfire view path capture.
  destruct (capture_then_frozen v r width height "captured_images" tsize
              inp rest shot w Hg Hfire)
    as (fin & w' & n & Hrun & Hc & Hn & Htr & Hloop & Hq & Hquit & Hex).
  exists fin, w', n. cbv zeta.
  destruct (frozen_events_no_imwrite v r (take n rest)) as [Hno1 Hno2].
  split; [exact Hrun|]. split; [exact Hc|]. split; [exact Hn|].
  split; [exact Htr|].
  split.
  { unfold imwrite_calls in *. rewrite omap_app, Hno1. reflexivity. }
  split.
  { unfold files_written in *. rewrite omap_app, Hno2. unfold capture.
    destruct (write_ok inp); reflexivity. }
  split; [exact Hno1|].
  split; [apply frozen_events_shown|].
  split; [exact Hloop|]. split; [exact Hq|]. split; [exact Hquit | exact Hex].
Qed.

End CaptureSession.

(* ===================================================================== *)
(** ** Start-up and exit of [main]                                       *)
(* ===================================================================== *)

Section Startup.

Lemma open_failure_report_run v w :
  open_failure_report v w =
    Some (tt, mkWorld (heap w) (button_clicked w) (button_rect w)
                      (trace w ++ failure_events v (mkEnv false None false (0, 0) []))).
Proof.
  unfold open_failure_report, failure_events. cbn [opened negb].
  run_with print_run. destruct v.
  - reflexivity.
  - run_with print_run. run_with print_run. run_with print_run.
    rewrite print_run. cbn [heap button_clicked button_rect trace].
    rewrite <- !app_assoc. reflexivity.
Qed.

Lemma ready_report_run v w :
  exists evs,
    ready_report v w =
      Some (tt, mkWorld (heap w) (button_clicked w) (button_rect w) (trace w ++ evs)).
Proof.
  unfold ready_report. destruct v.
  - do 4 run_with print_run. rewrite print_run.
    cbn [heap button_clicked button_rect trace].
    rewrite <- !app_assoc. eexists. reflexivity.
  - do 8 run_with print_run. rewrite print_run.
    cbn [heap button_clicked button_rect trace].
    rewrite <- !app_assoc. eexists. reflexivity.
Qed.

Lemma main_open_failure v env w :
  opened env = false ->
  main v env w =
    Some (Returned, mkWorld (heap w) (button_clicked w) (button_rect w)
                            (trace w ++ failure_events v env)).
Proof.
  intros Ho. unfold main. rewrite Ho. cbn [negb].
  run_with open_failure_report_run.
  unfold failure_events. rewrite Ho. reflexivity.
Qed.

Lemma main_read_failure v env w :
  opened env = true -> first env = None ->
  main v env w =
    Some (Returned, mkWorld (heap w) (button_clicked w) (button_rect w)
                            (trace w ++ failure_events v env)).
Proof.
  intros Ho Hf. unfold main. rewrite Ho, Hf. cbn [negb].
  run_with print_run. run_with emit_run.
  unfold failure_events. rewrite Ho. cbn [negb]. rewrite <- app_assoc. reflexivity.
Qed.

Lemma main_quit v env w :
  quit_pressed env -> exists w', main v env w = Some (Returned, w').
Proof.
  intros (Ho & [shot Hf] & Hq). unfold main. rewrite Ho, Hf. cbn [negb].
  run_with alloc_run. cbv zeta.
  run_with print_run.
  destruct (dir_exists env); cbn [negb].
  all: repeat first [run_with print_run | run_with emit_run].
  all: match goal with |- context [(ready_report ?v0 ≫= _) ?w0] =>
         destruct (ready_report_run v0 w0) as [evs Hr]
       end.
  all: erewrite bind_run; [|exact Hr].
  all: run_with emit_run; run_with emit_run.
  all: match goal with
       | Hq : Exists quits ?ins
         |- context [(main_loop ?v0 ?r ?wd ?ht ?d ?ts false ?ins ≫= _) ?w0] =>
         destruct (main_loop_quits v0 r wd ht d ts ins false w0 Hq)
           as (c & w1 & Hloop)
       end.
  all: erewrite bind_run; [|exact Hloop].
  all: cbv beta iota.
  all: run_with emit_run; run_with emit_run; run_with print_run.
  all: eexists; apply mret_run.
Qed.

(** C7 (amended): when the camera cannot be opened or the first frame
    cannot be read, [main] prints its diagnostic and returns without
    entering the loop, and so without creating the window or a buffer;
    the process then ends with exit status 0, exactly as after a quit. *)
Theorem startup_failure_exits_like_quit v env w :
  startup_fails env \/ quit_pressed env ->
  exists w',
    main v env w = Some (Returned, w')
    /\ process_exit v env w = Some 0
    /\ (startup_fails env ->
        trace w' = trace w ++ failure_events v env
        /\ (exists msg rest, failure_events v env = EPrint msg :: rest)
        /\ shown (failure_events v env) = []
        /\ imwrite_calls (failure_events v env) = []
        /\ heap w' = heap w).
Proof.
  intros Hcase.
  assert (Hshape : (exists msg rest, failure_events v env = EPrint msg :: rest)
                   /\ shown (failure_events v env) = []
                   /\ imwrite_calls (failure_events v env) = []).
  { unfold failure_events. destruct (opened env), v; cbn; eauto. }
  assert (Hrun : (startup_fails env /\
                  main v env w =
                    Some (Returned, mkWorld (heap w) (button_clicked w) (button_rect w)
                                      (trace w ++ failure_events v env)))
                 \/ (~ startup_fails env /\ exists w', main v env w = Some (Returned, w'))).
  { destruct (opened env) eqn:Ho.
    - destruct (first env) as [shot|] eqn:Hf.
      + right. split.
        * intros [H | H]; congruence.
        * apply main_quit. destruct Hcase as [[H | H] | H]; [congruence | congruence | exact H].
      + left. split; [right; assumption|]. apply main_read_failure; assumption.
    - left. split; [left; assumption|]. apply main_open_failure; assumption. }
  destruct Hrun as [[Hfail Hrun] | [Hok [w' Hrun]]].
  - eexists. split; [exact Hrun|]. split.
    + unfold process_exit. rewrite Hrun. reflexivity.
    + intros _. cbn [trace heap]. destruct Hshape as (H1 & H2 & H3). auto.
  - exists w'. split; [exact Hrun|]. split.
    + unfold process_exit. rewrite Hrun. reflexivity.
    + intros Hfail. contradiction.
Qed.

End Startup.

(* ===================================================================== *)
(** ** The properties at the sample inputs                               *)
(* ===================================================================== *)

Section Instances.

Lemma draw_static_guides_copies_witness :
  exists overlay w',
    draw_static_guides (init 640 480) 1%positive sample_world = Some (overlay, w')
    /\ overlay <> 1%positive
    /\ heap w' !! 1%positive = Some (to_image sample_shot)
    /\ heap w' !! overlay = Some (with_guides (init 640 480) (to_image sample_shot))
    /\ drawn (with_guides (init 640 480) (to_image sample_shot)) =
         drawn (to_image sample_shot) ++
           [Circle (coin_center (init 640 480)) (coin_radius (init 640 480)) green 2;
            Rectangle ((lesion_box (init 640 480)).1.1.1, (lesion_box (init 640 480)).1.1.2)
                      ((lesion_box (init 640 480)).1.2, (lesion_box (init 640 480)).2)
                      green 2]
    /\ (forall r, r <> overlay -> heap w' !! r = heap sample_world !! r).
Proof.
  apply (draw_static_guides_copies (init 640 480) 1%positive
           (to_image sample_shot) sample_world).
  reflexivity.
Defined.

Lemma show_feedback_in_place_witness :
  exists w',
    show_feedback (init 640 480) 1%positive live_message (0, 255, 0) sample_world
      = Some (1%positive, w')
    /\ heap w' !! 1%positive =
         Some (with_feedback (init 640 480) live_message (0, 255, 0)
                 (to_image sample_shot))
    /\ texts (with_feedback (init 640 480) live_message (0, 255, 0)
                (to_image sample_shot)) =
         texts (to_image sample_shot)
           ++ [live_message; "Align coin inside circle"; "Place lesion here"]
    /\ heap w' !! 1%positive <> heap sample_world !! 1%positive
    /\ dom (heap w') = dom (heap sample_world)
    /\ (forall r, r <> 1%positive -> heap w' !! r = heap sample_world !! r).
Proof.
  apply (show_feedback_in_place (init 640 480) 1%positive live_message (0, 255, 0)
           (to_image sample_shot) sample_world).
  reflexivity.
Defined.

Lemma capture_freezes_session_witness :
  let r := init 640 480 in
  let rest := [idle_input; click_input; quit_input; space_input] in
  let view := live_view r 640 480 (100, 30) sample_shot in
  let path := "captured_images/capture_" +:+ now space_input +:+ ".png" in
  let capture :=
    [EImshow window view;
     EImwrite path view (write_ok space_input);
     EPrint (nl +:+ check_mark +:+ " IMAGE CAPTURED: " +:+ path)] in
  exists fin w' n,
    let later := flat_map (frozen_events Webcam r) (take n rest) in
    main_loop Webcam r 640 480 "captured_images" (100, 30) false
      (space_input :: rest) initial_world = Some (fin, w')
    /\ final_captured fin = true
    /\ (n <= length rest)%nat
    /\ trace w' = trace initial_world ++ capture ++ later
    /\ imwrite_calls (capture ++ later) = [path]
    /\ files_written (capture ++ later) = (if write_ok space_input then [path] else [])
    /\ imwrite_calls later = []
    /\ Forall frozen_banner (shown later)
    /\ (fin = Looping true -> n = length rest)
    /\ (Z.land (raw_key space_input) 255 = ord_q -> fin = Exited true /\ n = 0%nat)
    /\ (forall i it, take n rest !! i = Some it -> quits it ->
          fin = Exited true /\ n = S i)
    /\ (Exists quits rest -> fin = Exited true).
Proof.
  apply (capture_freezes_session Webcam (init 640 480) 640 480 (100, 30)
           space_input [idle_input; click_input; quit_input; space_input]
           sample_shot initial_world).
  - reflexivity.
  - reflexivity.
Defined.

(** C6, as stated, fails: the space bar is pressed and the trigger fires,
    but the write fails; the session is frozen for good, a later trigger
    included, and no output file exists at its end. *)
Lemma capture_without_file :
  exists w',
    main_loop Webcam (init 640 480) 640 480 "captured_images" (100, 30) false
      [failed_write_input; idle_input; space_input; quit_input] initial_world
      = Some (Exited true, w')
    /\ fires 640 480 failed_write_input initial_world = true
    /\ imwrite_calls (trace w') = ["captured_images/capture_20260101-101010.png"]
    /\ files_written (trace w') = [].
Proof.
  vm_compute. eexists. split; [reflexivity|]. repeat split.
Qed.

(** The session of the specification's end-to-end test, shortened: one
    file is written, under the expected name. *)
Example session_writes_one_file :
  exists w',
    main Webcam env_session initial_world = Some (Returned, w')
    /\ imwrite_calls (trace w') = ["captured_images/capture_20260101-101010.png"]
    /\ length (shown (trace w')) = 4%nat
    /\ process_exit Webcam env_session initial_world = Some 0.
Proof.
  assert (H : exists w', main Webcam env_session initial_world = Some (Returned, w')
              /\ imwrite_calls (trace w') = ["captured_images/capture_20260101-101010.png"]
              /\ length (shown (trace w')) = 4%nat).
  { vm_compute. eexists. split; [reflexivity|]. split; reflexivity. }
  destruct H as (w' & Hrun & Hw & Hs). exists w'.
  unfold process_exit. rewrite Hrun. auto.
Qed.

(** C8, as stated, fails: the space bar is pressed, the write fails, no
    file exists, and [captured] is true all the same. *)
Lemma frozen_despite_failed_write :
  exists ctl w',
    loop_body Webcam (init 640 480) 640 480 "captured_images" (100, 30) false
      failed_write_input initial_world = Some ((true, ctl), w')
    /\ write_ok failed_write_input = false
    /\ files_written (trace w') = [].
Proof.
  pose proof (loop_body_live Webcam (init 640 480) 640 480 "captured_images"
                (100, 30) failed_write_input sample_shot initial_world eq_refl) as H.
  cbv zeta in H.
  change (fires 640 480 failed_write_input initial_world) with true in H.
  cbv iota in H.
  eexists _, _. split; [exact H|]. split; reflexivity.
Qed.

Lemma capture_ignores_write_result_witness :
  let r := init 640 480 in
  let view := live_view r 640 480 (100, 30) sample_shot in
  exists ctl w',
    loop_body Webcam r 640 480 "captured_images" (100, 30) false
      failed_write_input initial_world = Some ((true, ctl), w')
    /\ button_clicked w' = false
    /\ trace w' =
         trace initial_world ++
           [EImshow window view;
            EImwrite (capture_path "captured_images" failed_write_input) view
              (write_ok failed_write_input);
            EPrint (nl +:+ check_mark +:+ " IMAGE CAPTURED: "
                    +:+ capture_path "captured_images" failed_write_input)]
    /\ (write_ok failed_write_input = false ->
        files_written (trace w') = files_written (trace initial_world)).
Proof.
  apply (capture_ignores_write_result Webcam (init 640 480) 640 480
           "captured_images" (100, 30) failed_write_input sample_shot initial_world).
  - reflexivity.
  - reflexivity.
Defined.

(** C7, as stated, fails: without a camera the process ends with exit
    status 0, not with a non-zero one; the same holds when the first frame
    cannot be read. *)
Lemma camera_failure_exits_zero :
  ~ (exists code,
       process_exit Webcam env_no_camera initial_world = Some code /\ code <> 0)
  /\ ~ (exists code,
          process_exit Phone env_no_frame initial_world = Some code /\ code <> 0).
Proof.
  split; intros (code & H & Hne); vm_compute in H; congruence.
Qed.

Lemma startup_failure_exits_like_quit_witness :
  exists w',
    main Webcam env_no_camera initial_world = Some (Returned, w')
    /\ process_exit Webcam env_no_camera initial_world = Some 0
    /\ (startup_fails env_no_camera ->
        trace w' = trace initial_world ++ failure_events Webcam env_no_camera
        /\ (exists msg rest, failure_events Webcam env_no_camera = EPrint msg :: rest)
        /\ shown (failure_events Webcam env_no_camera) = []
        /\ imwrite_calls (failure_events Webcam env_no_camera) = []
        /\ heap w' = heap initial_world).
Proof.
  apply (startup_failure_exits_like_quit Webcam env_no_camera initial_world).
  left. left. reflexivity.
Defined.

End Instances.

(* ===================================================================== *)
(** * Further properties of the code                                     *)
(* ===================================================================== *)

(* ===================================================================== *)
(** ** Where the top of the lesion box loses a pixel                     *)
(* ===================================================================== *)
Section TopOfBox.

(** Just below an even multiple of the unit in the last place: the
    rounding reaches the multiple when the distance is at most half a
    unit (a tie goes up, the quotient being odd), and stops one unit
    short otherwise. *)
Lemma rne_val_just_below N c d :
  2 ^ 53 <= N ->
  N = c * 2 ^ (rne_shift N + 1) - d ->
  0 < d < 2 ^ rne_shift N ->
  rne_val N =
    if 2 * d <=? 2 ^ rne_shift N
    then c * 2 ^ (rne_shift N + 1)
    else c * 2 ^ (rne_shift N + 1) - 2 ^ rne_shift N.
Proof.
  intros HN Heq Hd.
  destruct (rne_shift_bounds N HN) as [Hs _].
  unfold rne_val, rne_mant.
  destruct (Z.ltb_spec N (2 ^ 53)); [lia|].
  set (s := rne_shift N) in *.
  pose proof (pow2_pos s ltac:(lia)) as Hps.
  assert (Hs1 : 2 ^ (s + 1) = 2 * 2 ^ s).
  { rewrite pow2_split by lia. change (2 ^ 1) with 2. lia. }
  assert (Hhalf : 2 ^ s = 2 * 2 ^ (s - 1)).
  { replace s with (1 + (s - 1)) at 1 by lia. rewrite pow2_split by lia. reflexivity. }
  assert (HN' : N = (2 * c - 1) * 2 ^ s + (2 ^ s - d)) by lia.
  assert (Hq : N / 2 ^ s = 2 * c - 1).
  { symmetry. apply Z.div_unique_pos with (r := 2 ^ s - d); lia. }
  assert (Hr : N mod 2 ^ s = 2 ^ s - d).
  { symmetry. apply Z.mod_unique_pos with (q := 2 * c - 1); lia. }
  rewrite Hq, Hr.
  assert (Hodd : Z.odd (2 * c - 1) = true).
  { replace (2 * c - 1) with (1 + 2 * (c - 1)) by lia.
    rewrite Z.odd_add_mul_2. reflexivity. }
  rewrite Hodd, andb_true_r.
  destruct (Z.leb_spec (2 * d) (2 ^ s)) as [Hle | Hgt].
  - assert (Hup : (2 ^ (s - 1) <? 2 ^ s - d) || (2 ^ s - d =? 2 ^ (s - 1)) = true).
    { apply orb_true_iff. destruct (Z.eq_dec (2 ^ s - d) (2 ^ (s - 1))).
      - right. apply Z.eqb_eq. assumption.
      - left. apply Z.ltb_lt. lia. }
    rewrite Hup. lia.
  - assert (Hdn : (2 ^ (s - 1) <? 2 ^ s - d) || (2 ^ s - d =? 2 ^ (s - 1)) = false).
    { apply orb_false_iff. split; [apply Z.ltb_ge | apply Z.eqb_neq]; lia. }
    rewrite Hdn. lia.
Qed.

Lemma pow2_not_multiple_of_7 p : 0 <= p -> 2 ^ p mod 7 <> 0.
Proof.
  revert p. apply natlike_ind.
  - discriminate.
  - intros p Hp IH. rewrite Z.pow_succ_r by assumption.
    Z.div_mod_to_equations. lia.
Qed.

(** Where [int(0.35 * h)] loses a pixel: exactly at the multiples of 20
    whose 35% lies in the upper eighth of its binade. *)
Lemma pct35_characterised h :
  0 <= h <= max_dim ->
  py_int (fmul_int (float_literal 35 100) h) =
    if (h mod 20 =? 0) && (7 * 2 ^ Z.log2 (percent 35 h) <? 4 * percent 35 h)
    then percent 35 h - 1
    else percent 35 h.
Proof.
  intros Hh. destruct (Z.eqb_spec (h mod 20) 0) as [Hm | Hm]; cbn [andb].
  2:{ apply pct35_exact; assumption. }
  destruct (Z.eq_dec h 0) as [-> | Hh0]; [vm_compute; reflexivity|].
  unfold max_dim in Hh.
  assert (Hm' : exists m, h = 20 * m /\ 1 <= m <= 107374182).
  { exists (h / 20). Z.div_mod_to_equations. lia. }
  destruct Hm' as (m & -> & Hmr). clear Hm Hh0 Hh.
  assert (Hk : percent 35 (20 * m) = 7 * m).
  { unfold percent. Z.div_mod_to_equations. lia. }
  rewrite Hk.
  rewrite lit_35, py_int_fmul_int
    by (cbn [mant expo]; change (2 ^ 53) with 9007199254740992; lia).
  cbn [mant expo]. change (2 ^ (- -54)) with (2 ^ 54).
  set (N := 6305039478318694 * (20 * m)).
  set (p := Z.log2 (7 * m)).
  destruct (Z.log2_spec (7 * m) ltac:(lia)) as [Hlo Hhi]. fold p in Hlo, Hhi.
  assert (Hp0 : 0 <= p) by apply Z.log2_nonneg.
  assert (Hp30 : p <= 30).
  { destruct (Z.le_gt_cases p 30) as [|Hgt]; [assumption|].
    assert (2 ^ 31 <= 2 ^ p) by (apply Z.pow_le_mono_r; lia).
    change (2 ^ 31) with 2147483648 in *. lia. }
  assert (Hne : 7 * m <> 2 ^ p).
  { intros Heq. apply (pow2_not_multiple_of_7 p Hp0). rewrite <- Heq.
    rewrite Z.mul_comm. apply Z.mod_mul. lia. }
  rewrite Z.pow_succ_r in Hhi by assumption.
  set (P := 2 ^ p) in *.
  assert (HP : 0 < P) by (apply pow2_pos; assumption).
  assert (HP30 : P <= 2 ^ 30) by (apply Z.pow_le_mono_r; lia).
  change (2 ^ 30) with 1073741824 in HP30.
  assert (HN : N = 7 * m * 2 ^ 54 - 8 * m).
  { unfold N. change (2 ^ 54) with 18014398509481984. lia. }
  assert (Hlog : Z.log2 N = 54 + p).
  { apply Z.log2_unique; [lia|].
    rewrite Z.pow_succ_r by lia. rewrite pow2_split by lia. fold P.
    rewrite HN. change (2 ^ 54) with 18014398509481984. lia. }
  assert (Hbig : 2 ^ 53 <= N).
  { rewrite HN. change (2 ^ 54) with 18014398509481984.
    change (2 ^ 53) with 9007199254740992. lia. }
  assert (Hs : rne_shift N = p + 2).
  { unfold rne_shift. destruct (Z.ltb_spec N (2 ^ 53)); lia. }
  assert (H2s : 2 ^ (p + 2) = 4 * P).
  { rewrite pow2_split by lia. fold P. change (2 ^ 2) with 4. lia. }
  assert (H2s1 : 2 ^ (p + 2 + 1) = 8 * P).
  { rewrite pow2_split by lia. rewrite H2s. change (2 ^ 1) with 2. lia. }
  set (Q := 2 ^ (51 - p)).
  assert (HQ : 2 ^ 54 = Q * (8 * P)).
  { rewrite <- H2s1. unfold Q. rewrite <- pow2_split by lia. f_equal. lia. }
  pose proof (rne_val_just_below N (7 * m * Q) (8 * m) Hbig) as Hv.
  rewrite Hs, H2s, H2s1 in Hv.
  assert (HK : 7 * m * Q * (8 * P) = 7 * m * 2 ^ 54)
    by (rewrite HQ; ring).
  rewrite HK in Hv.
  specialize (Hv HN ltac:(lia)).
  rewrite Hv.
  destruct (Z.leb_spec (2 * (8 * m)) (4 * P)) as [Hle | Hgt];
    destruct (Z.ltb_spec (7 * P) (4 * (7 * m))) as [Hc | Hc]; try lia.
  - apply Z.div_mul. apply Z.pow_nonzero; lia.
  - symmetry. apply Z.div_unique_pos with (r := 2 ^ 54 - 4 * P).
    + change (2 ^ 54) with 18014398509481984. lia.
    + lia.
Qed.

(** X1: the top of the lesion box, [int(0.35 * height)], is the truncated
    35% of the height, except that it is one less exactly when the height
    is a multiple of 20 whose 35% lies in the upper eighth of its binade
    (more than 7/4 of the largest power of two below it): 180, 340, 360,
    660 to 720, 1300 to 1460, and so on. *)
Theorem lesion_top_exact w h :
  0 <= w <= max_dim -> 0 <= h <= max_dim ->
  (lesion_box (init w h)).1.1.2 =
    if (h mod 20 =? 0) && (7 * 2 ^ Z.log2 (percent 35 h) <? 4 * percent 35 h)
    then percent 35 h - 1
    else percent 35 h.
Proof.
  intros Hw Hh. rewrite (init_percentages w h Hw Hh). cbn [lesion_box fst snd].
  apply pct35_characterised. assumption.
Qed.

Lemma lesion_top_exact_witness :
  (lesion_box (init 1280 720)).1.1.2 =
    if (720 mod 20 =? 0) && (7 * 2 ^ Z.log2 (percent 35 720) <? 4 * percent 35 720)
    then percent 35 720 - 1
    else percent 35 720.
Proof. apply (lesion_top_exact 1280 720); unfold max_dim; lia. Defined.

End TopOfBox.

(* ===================================================================== *)
(** ** The guides inside the frame                                       *)
(* ===================================================================== *)
Section GeometryCoverage.

Ltac geometry_setup w h :=
  rewrite (init_percentages w h) by lia;
  unfold coin_left, coin_right, coin_top, coin_bottom, lesion_right;
  cbn [lesion_box coin_radius coin_center fst snd];
  rewrite ?gap_pixels_75; unfold percent.

(** X2: the coin circle never crosses the left frame edge, and it stays
    left of the right frame edge exactly for the width 187 and for every
    width from 191 on. *)
Theorem coin_circle_horizontal_extent w h :
  0 <= w <= max_dim -> 0 <= h <= max_dim ->
  0 <= coin_left (init w h)
  /\ (coin_right (init w h) < w <-> w = 187 \/ 191 <= w).
Proof.
  intros Hw Hh. geometry_setup w h. unfold max_dim in *.
  Z.div_mod_to_equations. lia.
Qed.

Lemma coin_circle_horizontal_extent_witness :
  0 <= coin_left (init 640 480)
  /\ (coin_right (init 640 480) < 640 <-> 640 = 187 \/ 191 <= 640).
Proof. apply (coin_circle_horizontal_extent 640 480); unfold max_dim; lia. Defined.

(** X3: for a frame at least 191 pixels wide and at most six times as wide
    as it is high, the whole coin circle lies inside the frame. *)
Theorem coin_circle_in_frame w h :
  191 <= w <= max_dim -> h <= max_dim -> w <= 6 * h ->
  0 <= coin_left (init w h) /\ coin_right (init w h) < w
  /\ 0 <= coin_top (init w h) /\ coin_bottom (init w h) < h.
Proof.
  intros Hw Hh Hr. geometry_setup w h. unfold max_dim in *.
  Z.div_mod_to_equations. lia.
Qed.

Lemma coin_circle_in_frame_witness :
  0 <= coin_left (init 640 480) /\ coin_right (init 640 480) < 640
  /\ 0 <= coin_top (init 640 480) /\ coin_bottom (init 640 480) < 480.
Proof. apply (coin_circle_in_frame 640 480); unfold max_dim; lia. Defined.

(** X4: the lesion box has a positive width exactly when the frame is at
    least 5 pixels wide, and a positive height exactly when the frame is at
    least 4 pixels high; for smaller frames it collapses to a line or a
    point. *)
Theorem lesion_box_nonempty w h :
  0 <= w <= max_dim -> 0 <= h <= max_dim ->
  let '(x1, y1, x2, y2) := lesion_box (init w h) in
  (x1 < x2 <-> 5 <= w) /\ (y1 < y2 <-> 4 <= h).
Proof.
  intros Hw Hh. geometry_setup w h. unfold max_dim in *.
  Z.div_mod_to_equations. lia.
Qed.

Lemma lesion_box_nonempty_witness :
  let '(x1, y1, x2, y2) := lesion_box (init 640 480) in
  (x1 < x2 <-> 5 <= 640) /\ (y1 < y2 <-> 4 <= 480).
Proof. apply (lesion_box_nonempty 640 480); unfold max_dim; lia. Defined.

(** X5: the lesion box is centred vertically, as its comment says, up to
    rounding: its top and bottom add up to the frame height or to at most
    two less, and the row of the coin centre is within one pixel of the
    middle of the box. *)
Theorem guides_vertically_aligned w h :
  0 <= w <= max_dim -> 0 <= h <= max_dim ->
  let '(x1, y1, x2, y2) := lesion_box (init w h) in
  h - 2 <= y1 + y2 <= h
  /\ 0 <= 2 * (coin_center (init w h)).2 - (y1 + y2) <= 2.
Proof.
  intros Hw Hh.
  pose proof (pct35_near h Hh) as Hn.
  assert (Hex : h mod 20 <> 0 ->
                py_int (fmul_int (float_literal 35 100) h) = percent 35 h)
    by (apply pct35_exact; assumption).
  geometry_setup w h. unfold max_dim, percent in *.
  set (y := py_int (fmul_int (float_literal 35 100) h)) in *.
  Z.div_mod_to_equations. lia.
Qed.

Lemma guides_vertically_aligned_witness :
  let '(x1, y1, x2, y2) := lesion_box (init 1280 720) in
  720 - 2 <= y1 + y2 <= 720
  /\ 0 <= 2 * (coin_center (init 1280 720)).2 - (y1 + y2) <= 2.
Proof. apply (guides_vertically_aligned 1280 720); unfold max_dim; lia. Defined.

End GeometryCoverage.

(* ===================================================================== *)
(** ** The methods of the renderer and the mouse callback                *)
(* ===================================================================== *)
Section MethodsCoverage.

(** X6: the dictionary of [get_config] describes what
    [draw_static_guides] draws: it has exactly the keys coin_center,
    coin_radius and lesion_box, and the circle and the rectangle that
    [draw_static_guides] adds to a frame have the centre, the radius and
    the corners found under these keys. *)
Theorem get_config_matches_guides self frame img w :
  heap w !! frame = Some img ->
  exists center radius x1 y1 x2 y2 overlay w' img',
    get_config self !! "coin_center" = Some (CfgPoint center)
    /\ get_config self !! "coin_radius" = Some (CfgInt radius)
    /\ get_config self !! "lesion_box" = Some (CfgBox (x1, y1, x2, y2))
    /\ dom (get_config self) = {["coin_center"; "coin_radius"; "lesion_box"]}
    /\ draw_static_guides self frame w = Some (overlay, w')
    /\ heap w' !! overlay = Some img'
    /\ drawn img' =
         drawn img ++
           [Circle center radius green 2; Rectangle (x1, y1) (x2, y2) green 2].
Proof.
  intros H.
  destruct (lesion_box self) as [[[x1 y1] x2] y2] eqn:Hbox.
  exists (coin_center self), (coin_radius self), x1, y1, x2, y2.
  eexists _, _, _.
  unfold get_config. rewrite Hbox.
  split; [apply lookup_insert_eq|].
  split; [rewrite lookup_insert_ne by discriminate; apply lookup_insert_eq|].
  split; [rewrite !lookup_insert_ne by discriminate; apply lookup_insert_eq|].
  split; [rewrite !dom_insert_L, dom_empty_L; set_solver|].
  split; [apply draw_static_guides_run; eassumption|].
  cbn [heap]. split; [apply lookup_insert_eq|].
  rewrite with_guides_drawn, Hbox. reflexivity.
Qed.

Lemma get_config_matches_guides_witness :
  exists center radius x1 y1 x2 y2 overlay w' img',
    get_config (init 640 480) !! "coin_center" = Some (CfgPoint center)
    /\ get_config (init 640 480) !! "coin_radius" = Some (CfgInt radius)
    /\ get_config (init 640 480) !! "lesion_box" = Some (CfgBox (x1, y1, x2, y2))
    /\ dom (get_config (init 640 480))
       = {["coin_center"; "coin_radius"; "lesion_box"]}
    /\ draw_static_guides (init 640 480) 1%positive sample_world = Some (overlay, w')
    /\ heap w' !! overlay = Some img'
    /\ drawn img' =
         drawn (to_image sample_shot) ++
           [Circle center radius green 2; Rectangle (x1, y1) (x2, y2) green 2].
Proof.
  apply (get_config_matches_guides (init 640 480) 1%positive
           (to_image sample_shot) sample_world).
  reflexivity.
Defined.

(** X7: [draw_static_guides] followed by [show_feedback] on its result, as
    both loops call them, returns a buffer that did not exist before, with
    the two guides and the three texts added to the picture; that buffer
    is the only one created, and the buffer that was passed in and every
    other buffer are left as they were. *)
Theorem guides_then_feedback self frame message color img w :
  heap w !! frame = Some img ->
  exists out w',
    (overlay ← draw_static_guides self frame;
     show_feedback self overlay message color) w = Some (out, w')
    /\ heap w !! out = None
    /\ out <> frame
    /\ heap w' !! frame = Some img
    /\ (forall r, r <> out -> heap w' !! r = heap w !! r)
    /\ dom (heap w') = {[out]} ∪ dom (heap w)
    /\ heap w' !! out = Some (with_feedback self message color (with_guides self img))
    /\ length (drawn (with_feedback self message color (with_guides self img)))
       = (length (drawn img) + 5)%nat
    /\ texts (with_feedback self message color (with_guides self img))
       = texts img ++ [message; "Align coin inside circle"; "Place lesion here"].
Proof.
  intros H. eexists _, _. split.
  { erewrite bind_run; [|apply draw_static_guides_run; eassumption].
    apply show_feedback_run. cbn [heap]. apply lookup_insert_eq. }
  cbn [heap]. pose proof (fresh_not_bound _ _ _ H) as Hne.
  split; [apply not_elem_of_dom, is_fresh|].
  split; [assumption|].
  rewrite insert_insert_eq.
  split; [rewrite lookup_insert_ne by assumption; assumption|].
  split; [intros r0 Hr; apply lookup_insert_ne; congruence|].
  split; [apply dom_insert_L|].
  split; [apply lookup_insert_eq|].
  split.
  { unfold with_feedback. destruct (lesion_box self) as [[[x1 y1] x2] y2].
    cbn [draw drawn]. rewrite !length_app, with_guides_drawn, length_app. cbn. lia. }
  rewrite with_feedback_texts, with_guides_texts. reflexivity.
Qed.

Lemma guides_then_feedback_witness :
  exists out w',
    (overlay ← draw_static_guides (init 640 480) 1%positive;
     show_feedback (init 640 480) overlay live_message (0, 255, 0)) sample_world
      = Some (out, w')
    /\ heap sample_world !! out = None
    /\ out <> 1%positive
    /\ heap w' !! 1%positive = Some (to_image sample_shot)
    /\ (forall r, r <> out -> heap w' !! r = heap sample_world !! r)
    /\ dom (heap w') = {[out]} ∪ dom (heap sample_world)
    /\ heap w' !! out =
         Some (with_feedback (init 640 480) live_message (0, 255, 0)
                 (with_guides (init 640 480) (to_image sample_shot)))
    /\ length (drawn (with_feedback (init 640 480) live_message (0, 255, 0)
                        (with_guides (init 640 480) (to_image sample_shot))))
       = (length (drawn (to_image sample_shot)) + 5)%nat
    /\ texts (with_feedback (init 640 480) live_message (0, 255, 0)
                (with_guides (init 640 480) (to_image sample_shot)))
       = texts (to_image sample_shot)
           ++ [live_message; "Align coin inside circle"; "Place lesion here"].
Proof.
  apply (guides_then_feedback (init 640 480) 1%positive live_message (0, 255, 0)
           (to_image sample_shot) sample_world).
  reflexivity.
Defined.

(** X8: the mouse callback touches nothing but [button_clicked], never
    clears it, and sets it exactly for a left-button press that falls
    inside the button rectangle, its four borders included; while
    [button_rect] is still [None] every event is ignored. *)
Theorem mouse_callback_sets_flag ev w :
  exists w',
    mouse_callback ev w = Some (tt, w')
    /\ heap w' = heap w /\ button_rect w' = button_rect w /\ trace w' = trace w
    /\ (button_clicked w' = true <->
        button_clicked w = true
        \/ (m_event ev = EVENT_LBUTTONDOWN
            /\ exists bx by_ bw bh,
                 button_rect w = Some (bx, by_, bw, bh)
                 /\ bx <= m_x ev <= bx + bw /\ by_ <= m_y ev <= by_ + bh)).
Proof.
  eexists. split; [apply mouse_callback_run|]. cbn [heap button_rect trace button_clicked].
  split; [reflexivity|]. split; [reflexivity|]. split; [reflexivity|].
  unfold clicked_after. rewrite orb_true_iff.
  destruct (button_rect w) as [[[[bx by_] bw] bh]|].
  - cbn [existsb hits]. rewrite orb_false_r, !andb_true_iff, Z.eqb_eq, !Z.leb_le.
    split.
    + intros [Hc | (He & ((Hx1 & Hx2) & Hy1) & Hy2)]; [left; assumption|].
      right. split; [assumption|]. exists bx, by_, bw, bh. repeat split; assumption.
    + intros [Hc | (He & bx' & by' & bw' & bh' & Heq & Hx & Hy)]; [left; assumption|].
      injection Heq as <- <- <- <-. right. lia.
  - split.
    + intros [Hc | Hf]; [left; assumption | discriminate].
    + intros [Hc | (_ & bx & by_ & bw & bh & Heq & _)]; [left; assumption | discriminate].
Qed.

End MethodsCoverage.

Section LoopCoverage.

Context (v : Variant) (r : OverlayRenderer) (width height : Z)
        (dir : string) (tsize : Z * Z).

Lemma fires_iff inp w :
  fires width height inp w = true <->
  button_clicked w = true
  \/ Z.land (raw_key inp) 255 = ord_space
  \/ Exists (fun ev => hits (button_box width height) ev = true) (pending inp).
Proof.
  unfold fires, triggered, clicked_after, with_rect. cbn [button_clicked button_rect].
  rewrite !orb_true_iff, !Z.eqb_eq, existsb_exists, Exists_exists.
  change 32 with ord_space.
  split.
  - intros [[[Hc | (ev & Hin & Hh)] | Hk] | Hk]; auto.
    right. right. exists ev. split; [apply list_elem_of_In; assumption | assumption].
  - intros [Hc | [Hk | (ev & Hin & Hh)]]; auto.
    left. left. right. exists ev. split; [apply list_elem_of_In; assumption | assumption].
Qed.

(** X9: an iteration before the capture that gets a frame captures exactly
    when the button was clicked or the space bar is pressed, leaves the
    loop exactly when [q] is pressed (a click pending together with [q]
    still writes the file first), displays the live view, writes that same
    image when it captures and nothing otherwise, and always ends with
    [button_clicked] cleared. *)
Theorem live_iteration_outcome inp shot w :
  grab inp = Some shot ->
  let view := live_view r width height tsize shot in
  exists c ctl w',
    loop_body v r width height dir tsize false inp w = Some ((c, ctl), w')
    /\ (c = true <->
        button_clicked w = true
        \/ Z.land (raw_key inp) 255 = ord_space
        \/ Exists (fun ev => hits (button_box width height) ev = true) (pending inp))
    /\ (ctl = Break <-> Z.land (raw_key inp) 255 = ord_q)
    /\ button_clicked w' = false
    /\ trace w' =
         trace w ++ EImshow window view ::
           (if c then [EImwrite (capture_path dir inp) view (write_ok inp);
                       EPrint (nl +:+ check_mark +:+ " IMAGE CAPTURED: "
                               +:+ capture_path dir inp)]
            else []).
Proof.
  intros Hg view.
  pose proof (loop_body_live v r width height dir tsize inp shot w Hg) as Hbody.
  cbv zeta in Hbody. fold view in Hbody.
  eexists _, _, _. split; [exact Hbody|]. cbn [button_clicked trace].
  split; [apply fires_iff|].
  split.
  { destruct (Z.eqb_spec (Z.land (raw_key inp) 255) ord_q); split; congruence. }
  split.
  { destruct (fires width height inp w) eqn:Hf; [reflexivity|].
    unfold fires, triggered in Hf. rewrite !orb_false_iff in Hf. tauto. }
  destruct (fires width height inp w); reflexivity.
Qed.

Lemma land_255_periodic raw k : Z.land (raw + 256 * k) 255 = Z.land raw 255.
Proof.
  change 255 with (Z.ones 8). rewrite !Z.land_ones by lia.
  change (2 ^ 8) with 256. rewrite (Z.mul_comm 256). apply Z.mod_add. lia.
Qed.

(** X10: only the low eight bits of the key code count: two codes that
    differ by a multiple of 256 make an iteration behave in the same way,
    in every state of the loop. *)
Theorem key_code_is_masked captured inp k w :
  loop_body v r width height dir tsize captured
    (with_key inp (raw_key inp + 256 * k)) w
  = loop_body v r width height dir tsize captured inp w.
Proof.
  destruct (grab inp) as [shot|] eqn:Hg.
  - destruct captured.
    + rewrite (loop_body_frozen v r width height dir tsize
                 (with_key inp (raw_key inp + 256 * k)) shot w Hg).
      rewrite (loop_body_frozen v r width height dir tsize inp shot w Hg).
      cbn [with_key raw_key pending]. rewrite land_255_periodic. reflexivity.
    + rewrite (loop_body_live v r width height dir tsize
                 (with_key inp (raw_key inp + 256 * k)) shot w Hg).
      rewrite (loop_body_live v r width height dir tsize inp shot w Hg).
      unfold fires, capture_events, capture_path.
      cbn [with_key raw_key pending now write_ok]. rewrite land_255_periodic.
      reflexivity.
  - rewrite (loop_body_dropped v r width height dir tsize captured
               (with_key inp (raw_key inp + 256 * k)) w Hg).
    rewrite (loop_body_dropped v r width height dir tsize captured inp w Hg).
    reflexivity.
Qed.


End LoopCoverage.

Lemma live_iteration_outcome_witness :
  let view := live_view (init 640 480) 640 480 (100, 30) sample_shot in
  exists c ctl w',
    loop_body Webcam (init 640 480) 640 480 "captured_images" (100, 30) false
      click_input initial_world = Some ((c, ctl), w')
    /\ (c = true <->
        button_clicked initial_world = true
        \/ Z.land (raw_key click_input) 255 = ord_space
        \/ Exists (fun ev => hits (button_box 640 480) ev = true) (pending click_input))
    /\ (ctl = Break <-> Z.land (raw_key click_input) 255 = ord_q)
    /\ button_clicked w' = false
    /\ trace w' =
         trace initial_world ++ EImshow window view ::
           (if c then [EImwrite (capture_path "captured_images" click_input) view
                         (write_ok click_input);
                       EPrint (nl +:+ check_mark +:+ " IMAGE CAPTURED: "
                               +:+ capture_path "captured_images" click_input)]
            else []).
Proof.
  apply (live_iteration_outcome Webcam (init 640 480) 640 480 "captured_images"
           (100, 30) click_input sample_shot initial_world).
  reflexivity.
Defined.


(* ===================================================================== *)
(** ** Whole sessions                                                    *)
(* ===================================================================== *)
Section SessionCoverage.

Context (v : Variant) (r : OverlayRenderer) (width height : Z)
        (dir : string) (tsize : Z * Z).

Lemma imwrite_calls_app a b :
  imwrite_calls (a ++ b) = imwrite_calls a ++ imwrite_calls b.
Proof. apply omap_app. Qed.

Lemma frozen_events_loop_event ins :
  Forall loop_event (flat_map (frozen_events v r) ins).
Proof.
  induction ins as [|inp ins IH]; [constructor|].
  cbn [flat_map]. apply Forall_app. split; [|assumption].
  unfold frozen_events. destruct (grab inp); [|destruct v]; repeat constructor.
Qed.

(** What any run of the loop emits, and how many images it writes. *)
Lemma main_loop_events ins : forall captured w,
  exists fin w' evs,
    main_loop v r width height dir tsize captured ins w = Some (fin, w')
    /\ trace w' = trace w ++ evs
    /\ Forall loop_event evs
    /\ (captured = true -> final_captured fin = true)
    /\ length (imwrite_calls evs)
       = (if captured then 0 else if final_captured fin then 1 else 0)%nat.
Proof.
  induction ins as [|inp ins IH]; intros captured w.
  - exists (Looping captured), w, []. cbn. rewrite app_nil_r.
    repeat split; try constructor; try (intros ->; reflexivity).
    destruct captured; reflexivity.
  - destruct (grab inp) as [shot|] eqn:Hg.
    + destruct captured.
      * rewrite (main_loop_cons _ _ _ _ _ _ _ _ _ _ _ _ _
                   (loop_body_frozen v r width height dir tsize inp shot w Hg)).
        destruct (Z.eqb_spec (Z.land (raw_key inp) 255) ord_q) as [Hq | Hq].
        -- eexists (Exited true), _, [_]. cbn [trace].
           split; [reflexivity|]. split; [reflexivity|].
           split; [repeat constructor|]. split; reflexivity.
        -- match goal with |- context [main_loop _ _ _ _ _ _ true ins ?w1] =>
             destruct (IH true w1) as (fin & w' & evs & Hrun & Htr & Hev & Hc & Hn)
           end.
           cbn [trace] in Htr.
           exists fin, w', (EImshow window (frozen_view r shot) :: evs).
           split; [assumption|].
           split; [rewrite Htr, <- app_assoc; reflexivity|].
           split; [constructor; [exact I | assumption]|].
           split; [assumption|]. exact Hn.
      * pose proof (loop_body_live v r width height dir tsize inp shot w Hg) as Hbody.
        cbv zeta in Hbody.
        rewrite (main_loop_cons _ _ _ _ _ _ _ _ _ _ _ _ _ Hbody).
        set (view := live_view r width height tsize shot) in *.
        destruct (fires width height inp w) eqn:Hf.
        -- destruct (Z.eqb_spec (Z.land (raw_key inp) 255) ord_q) as [Hq | Hq].
           ++ eexists (Exited true), _, _. cbn [trace].
              split; [reflexivity|]. split; [reflexivity|].
              split; [repeat constructor|]. split; [discriminate | reflexivity].
           ++ match goal with |- context [main_loop _ _ _ _ _ _ true ins ?w1] =>
                destruct (IH true w1) as (fin & w' & evs & Hrun & Htr & Hev & Hc & Hn)
              end.
              cbn [trace] in Htr.
              exists fin, w',
                ([EImshow window view] ++ capture_events dir inp view ++ evs).
              split; [assumption|].
              split; [rewrite Htr, <- !app_assoc; reflexivity|].
              split; [repeat (constructor; [exact I|]); assumption|].
              split; [discriminate|].
              rewrite (Hc eq_refl), !imwrite_calls_app, !length_app, Hn.
              reflexivity.
        -- destruct (Z.eqb_spec (Z.land (raw_key inp) 255) ord_q) as [Hq | Hq].
           ++ eexists (Exited false), _, _. cbn [trace].
              split; [reflexivity|]. split; [reflexivity|].
              split; [repeat constructor|]. split; [discriminate | reflexivity].
           ++ match goal with |- context [main_loop _ _ _ _ _ _ false ins ?w1] =>
                destruct (IH false w1) as (fin & w' & evs & Hrun & Htr & Hev & Hc & Hn)
              end.
              cbn [trace] in Htr.
              exists fin, w', ([EImshow window view] ++ [] ++ evs).
              split; [assumption|].
              split; [rewrite Htr, <- !app_assoc; reflexivity|].
              split; [constructor; [exact I | assumption]|].
              split; [discriminate|]. exact Hn.
    + rewrite (main_loop_cons _ _ _ _ _ _ _ _ _ _ _ _ _
                 (loop_body_dropped v r width height dir tsize captured inp w Hg)).
      destruct v eqn:Hv.
      * eexists (Exited captured), _, []. cbn [trace].
        split; [reflexivity|]. split; [reflexivity|].
        split; [constructor|]. split; [intros ->; reflexivity|].
        destruct captured; reflexivity.
      * match goal with |- context [main_loop _ _ _ _ _ _ captured ins ?w1] =>
          destruct (IH captured w1) as (fin & w' & evs & Hrun & Htr & Hev & Hc & Hn)
        end.
        cbn [trace] in Htr.
        exists fin, w', (EPrint "WARNING: Frame dropped" :: evs).
        split; [assumption|].
        split; [rewrite Htr, <- app_assoc; reflexivity|].
        split; [constructor; [exact I | assumption]|].
        split; [assumption|]. exact Hn.
Qed.

(** X12: whatever the inputs are, a run of the loop from its start never
    fails, emits nothing but displays, image writes and prints, and writes
    an image exactly once if [captured] has become true and never
    otherwise. *)
Theorem session_writes_at_most_once ins w :
  exists fin w' evs,
    main_loop v r width height dir tsize false ins w = Some (fin, w')
    /\ trace w' = trace w ++ evs
    /\ Forall loop_event evs
    /\ length (imwrite_calls evs) = (if final_captured fin then 1 else 0)%nat.
Proof.
  destruct (main_loop_events ins false w) as (fin & w' & evs & Hrun & Htr & Hev & _ & Hn).
  exists fin, w', evs. auto.
Qed.

(** X13: when frames are dropped in the middle of a session, main.py
    leaves the loop at the first one without a message, while
    main_phone.py prints one warning per dropped frame and goes on; in
    both, [captured], the buffers and the globals stay as they were. *)
Theorem dropped_frames_policy captured ins w :
  Forall (fun inp => grab inp = None) ins -> ins <> [] ->
  exists fin w',
    main_loop v r width height dir tsize captured ins w = Some (fin, w')
    /\ heap w' = heap w /\ button_clicked w' = button_clicked w
    /\ button_rect w' = button_rect w
    /\ match v with
       | Webcam => fin = Exited captured /\ trace w' = trace w
       | Phone =>
           fin = Looping captured
           /\ trace w' =
                trace w ++ replicate (length ins) (EPrint "WARNING: Frame dropped")
       end.
Proof.
  intros Hall Hne. revert w. induction Hall as [|inp ins Hg Hall IH]; intros w.
  - contradiction.
  - rewrite (main_loop_cons _ _ _ _ _ _ _ _ _ _ _ _ _
               (loop_body_dropped v r width height dir tsize captured inp w Hg)).
    destruct v eqn:Hv.
    + eexists _, _. split; [reflexivity|]. cbn [heap button_clicked button_rect trace].
      rewrite app_nil_r. auto.
    + destruct ins as [|inp' ins'].
      * eexists _, _. split; [reflexivity|]. cbn. auto.
      * match goal with |- context [main_loop _ _ _ _ _ _ _ _ ?w1] =>
          destruct (IH ltac:(discriminate) w1)
            as (fin & w' & Hrun & Hh & Hc & Hr & Hfin & Htr)
        end.
        exists fin, w'. cbn [heap button_clicked button_rect trace] in *.
        split; [exact Hrun|]. split; [exact Hh|]. split; [exact Hc|].
        split; [exact Hr|]. split; [exact Hfin|].
        rewrite Htr, <- app_assoc. reflexivity.
Qed.

End SessionCoverage.

Lemma dropped_frames_policy_witness :
  let dropped := mkIter None [] (-1) "20260101-101010" true in
  exists fin w',
    main_loop Phone (init 640 480) 640 480 "captured_images" (100, 30) true
      [dropped; dropped] initial_world = Some (fin, w')
    /\ heap w' = heap initial_world
    /\ button_clicked w' = button_clicked initial_world
    /\ button_rect w' = button_rect initial_world
    /\ fin = Looping true
    /\ trace w' =
         trace initial_world
           ++ replicate (length [dropped; dropped]) (EPrint "WARNING: Frame dropped").
Proof.
  apply (dropped_frames_policy Phone (init 640 480) 640 480 "captured_images"
           (100, 30) true
           [mkIter None [] (-1) "20260101-101010" true;
            mkIter None [] (-1) "20260101-101010" true]
           initial_world).
  - repeat constructor.
  - discriminate.
Defined.

Section MainCoverage.

Lemma ready_report_events v w :
  ready_report v w =
    Some (tt, mkWorld (heap w) (button_clicked w) (button_rect w)
                      (trace w ++ ready_events v)).
Proof.
  unfold ready_report, ready_events. destruct v.
  - do 4 run_with print_run. rewrite print_run.
    cbn [heap button_clicked button_rect trace].
    rewrite <- !app_assoc. reflexivity.
  - do 8 run_with print_run. rewrite print_run.
    cbn [heap button_clicked button_rect trace].
    rewrite <- !app_assoc. reflexivity.
Qed.

(** The shape of every run of [main] that got its first frame. *)
Lemma main_session v env shot w :
  opened env = true -> first env = Some shot ->
  exists fin w' evs,
    main v env w =
      Some (match fin with Exited _ => Returned | Looping _ => Running end, w')
    /\ trace w' =
         trace w ++ setup_events v env shot ++ evs
           ++ match fin with Exited _ => teardown_events v | Looping _ => [] end
    /\ Forall loop_event evs
    /\ length (imwrite_calls evs) = (if final_captured fin then 1 else 0)%nat.
Proof.
  intros Ho Hf. unfold main. rewrite Ho, Hf. cbn [negb].
  run_with alloc_run. cbv zeta.
  run_with print_run.
  destruct (dir_exists env) eqn:Hd; cbn [negb].
  all: repeat first [run_with print_run | run_with emit_run].
  all: run_with ready_report_events.
  all: run_with emit_run; run_with emit_run.
  all: match goal with
       |- context [(main_loop ?v0 ?r ?wd ?ht ?d ?ts false ?ins ≫= _) ?w0] =>
         destruct (main_loop_events v0 r wd ht d ts ins false w0)
           as (fin & w1 & evs & Hloop & Htr & Hev & _ & Hn)
       end.
  all: erewrite bind_run; [|exact Hloop].
  all: cbn [trace] in Htr.
  all: exists fin; destruct fin as [c | c]; cbv beta iota.
  all: try (run_with emit_run; run_with emit_run; run_with print_run).
  all: eexists _, evs; split; [apply mret_run|].
  all: cbn [trace]; rewrite ?Htr; unfold setup_events, teardown_events; rewrite Hd.
  all: split; [rewrite <- ?app_assoc; cbn [app]; rewrite ?app_nil_r; reflexivity|].
  all: split; assumption.
Qed.

End MainCoverage.
Section ResourceCoverage.

Lemma releases_app a b : releases (a ++ b) = (releases a + releases b)%nat.
Proof. unfold releases. rewrite omap_app, length_app. reflexivity. Qed.

Lemma makedirs_app a b : makedirs (a ++ b) = (makedirs a + makedirs b)%nat.
Proof. unfold makedirs. rewrite omap_app, length_app. reflexivity. Qed.

Lemma loop_events_neutral evs :
  Forall loop_event evs -> releases evs = 0%nat /\ makedirs evs = 0%nat.
Proof.
  induction 1 as [|e evs He _ [IH1 IH2]]; [split; reflexivity|].
  change (e :: evs) with ([e] ++ evs). rewrite releases_app, makedirs_app, IH1, IH2.
  destruct e; try contradiction; split; reflexivity.
Qed.

Lemma setup_events_counts v env shot :
  releases (setup_events v env shot) = 0%nat
  /\ makedirs (setup_events v env shot) = (if dir_exists env then 0 else 1)%nat
  /\ imwrite_calls (setup_events v env shot) = []
  /\ shown (setup_events v env shot) = [].
Proof.
  unfold setup_events. destruct (dir_exists env), v; repeat split; reflexivity.
Qed.

(** X15: once the first frame is there, the directory captured_images is
    created if and only if it does not exist, once, before anything is
    displayed or written; it is never created afterwards. *)
Theorem directory_created_when_absent v env shot w :
  opened env = true -> first env = Some shot ->
  exists o w' pre post,
    main v env w = Some (o, w')
    /\ trace w' = trace w ++ pre ++ post
    /\ makedirs pre = (if dir_exists env then 0 else 1)%nat
    /\ imwrite_calls pre = [] /\ shown pre = []
    /\ makedirs post = 0%nat.
Proof.
  intros Ho Hf.
  destruct (main_session v env shot w Ho Hf) as (fin & w' & evs & Hrun & Htr & Hev & _).
  eexists _, w', (setup_events v env shot), _.
  split; [exact Hrun|]. split; [exact Htr|].
  destruct (setup_events_counts v env shot) as (_ & Hm & Hi & Hs).
  split; [exact Hm|]. split; [exact Hi|]. split; [exact Hs|].
  rewrite makedirs_app, (proj2 (loop_events_neutral evs Hev)).
  destruct fin; reflexivity.
Qed.

Lemma directory_created_when_absent_witness :
  exists o w' pre post,
    main Webcam env_session initial_world = Some (o, w')
    /\ trace w' = trace initial_world ++ pre ++ post
    /\ makedirs pre = (if dir_exists env_session then 0 else 1)%nat
    /\ imwrite_calls pre = [] /\ shown pre = []
    /\ makedirs post = 0%nat.
Proof.
  apply (directory_created_when_absent Webcam env_session sample_shot initial_world).
  - reflexivity.
  - reflexivity.
Defined.

End ResourceCoverage.

Section PathCoverage.

Lemma string_app_cons c a b : String c a +:+ b = String c (a +:+ b).
Proof. reflexivity. Qed.

Lemma string_length_app a b :
  String.length (a +:+ b) = (String.length a + String.length b)%nat.
Proof.
  induction a as [|c a IH]; [reflexivity|].
  rewrite string_app_cons. cbn [String.length]. rewrite IH. reflexivity.
Qed.

Lemma string_app_inv_tail a b s : a +:+ s = b +:+ s -> a = b.
Proof.
  revert b. induction a as [|c a IH]; intros [|d b] H.
  - reflexivity.
  - apply (f_equal String.length) in H.
    rewrite !string_length_app in H. cbn [String.length] in H. lia.
  - apply (f_equal String.length) in H.
    rewrite !string_length_app in H. cbn [String.length] in H. lia.
  - rewrite !string_app_cons in H. injection H as -> H. f_equal. apply IH. assumption.
Qed.

(** X16: a capture goes to captured_images/capture_<timestamp>.png
    whatever the timestamp is, and two captures go to the same file
    exactly when their timestamps are equal. *)
Theorem capture_files_by_timestamp inp1 inp2 :
  capture_path "captured_images" inp1 =
    "captured_images/capture_" +:+ now inp1 +:+ ".png"
  /\ (capture_path "captured_images" inp1 = capture_path "captured_images" inp2 <->
      now inp1 = now inp2).
Proof.
  assert (H : forall inp, capture_path "captured_images" inp =
                "captured_images/capture_" +:+ now inp +:+ ".png") by reflexivity.
  split; [apply H|]. rewrite !H. split.
  - intros Heq. apply (inj (String.app "captured_images/capture_")) in Heq.
    apply string_app_inv_tail in Heq. assumption.
  - intros ->. reflexivity.
Qed.

End PathCoverage.

(* ===================================================================== *)
(** ** The camera address of main_phone.py                               *)
(* ===================================================================== *)

Section PhoneCoverage.
Import PhoneSource.

Lemma startswith_nil s : startswith s [] = true.
Proof. destruct s; reflexivity. Qed.

Lemma startswith_app s t p : startswith s p = true -> startswith (s ++ t) p = true.
Proof.
  revert s. induction p as [|a p IH]; intros s H; [apply startswith_nil|].
  destruct s as [|b s]; [discriminate|]. cbn in *.
  apply andb_true_iff in H as [Hab Hs]. rewrite Hab, (IH s Hs). reflexivity.
Qed.

Lemma startswith_self p t : startswith (p ++ t) p = true.
Proof.
  induction p as [|a p IH]; [apply startswith_nil|].
  cbn. rewrite N.eqb_refl, IH. reflexivity.
Qed.

Lemma endswith_app s t p : endswith s p = true -> endswith (t ++ s) p = true.
Proof. unfold endswith. rewrite rev_app_distr. apply startswith_app. Qed.

Lemma endswith_self s p : endswith (s ++ p) p = true.
Proof. unfold endswith. rewrite rev_app_distr. apply startswith_self. Qed.

Lemma startswith_head s a p :
  startswith s (a :: p) = true -> exists s', s = a :: s'.
Proof.
  destruct s as [|b s]; [discriminate|]. cbn. intros H.
  apply andb_true_iff in H as [Hab _]. apply N.eqb_eq in Hab as ->. eauto.
Qed.

Lemma url_of_shape line :
  startswith (url_of line) (lit "http") = true
  /\ endswith (url_of line) (lit "/video") = true.
Proof.
  unfold url_of. set (ip := strip line).
  destruct (startswith ip (lit "http")) eqn:Hs; cbn [negb].
  - destruct (endswith ip (lit "/video")) eqn:He; cbn [negb].
    + split; assumption.
    + split; [apply startswith_app; assumption | apply endswith_self].
  - destruct (endswith (lit "http://" ++ ip) (lit "/video")) eqn:He; cbn [negb].
    + split; [reflexivity | assumption].
    + split; [reflexivity | apply endswith_self].
Qed.

Lemma strip_fixed s :
  startswith s (lit "http") = true -> endswith s (lit "/video") = true ->
  strip s = s.
Proof.
  intros Hs He. unfold strip, rstrip.
  assert (Hl : lstrip s = s).
  { apply startswith_head in Hs as [s' ->]. reflexivity. }
  assert (Hr : lstrip (rev s) = rev s).
  { unfold endswith in He. apply startswith_head in He as [t ->]. reflexivity. }
  rewrite Hl, Hr. apply rev_involutive.
Qed.

(** X17: when the choice is 2 (white space around it aside),
    [get_camera_source] reads exactly one more line and returns an address
    that starts with http and ends with /video, whatever was typed, and
    announces that address. *)
Theorem phone_url_is_complete choice line rest :
  str_eqb (strip choice) (lit "2") = true ->
  exists out u,
    get_camera_source (choice :: line :: rest) = (out, Some (Stream u), rest)
    /\ startswith u (lit "http") = true
    /\ endswith u (lit "/video") = true
    /\ last out = Some (Out (lit "Connecting to: " ++ u)).
Proof.
  intros Hc. unfold get_camera_source. cbn [input]. rewrite Hc.
  eexists _, _. split; [reflexivity|].
  fold (url_of line). destruct (url_of_shape line) as [H1 H2].
  split; [exact H1|]. split; [exact H2|].
  rewrite last_snoc. reflexivity.
Qed.

Lemma phone_url_is_complete_witness :
  exists out u,
    get_camera_source [lit " 2 "; lit "192.168.1.100:8080"; lit "left over"]
      = (out, Some (Stream u), [lit "left over"])
    /\ startswith u (lit "http") = true
    /\ endswith u (lit "/video") = true
    /\ last out = Some (Out (lit "Connecting to: " ++ u)).
Proof.
  apply (phone_url_is_complete (lit " 2 ") (lit "192.168.1.100:8080")
           [lit "left over"]).
  reflexivity.
Defined.

(** X18: completing an address is idempotent: an address produced by
    [get_camera_source], typed in again, comes out unchanged. *)
Theorem phone_url_idempotent line : url_of (url_of line) = url_of line.
Proof.
  destruct (url_of_shape line) as [H1 H2].
  unfold url_of at 1. rewrite (strip_fixed _ H1 H2), H1. cbn [negb].
  rewrite H2. reflexivity.
Qed.

End PhoneCoverage.
